(** * AIND-Isolation: the search agent of [game_agent.py] and the
      evaluation functions of [heuristics.py]

    A shallow embedding of [CustomPlayer] ([get_move], [minimax],
    [alphabeta], [alphabeta_max], [alphabeta_min]), of [custom_score] and of
    the heuristics, followed by the properties of the specification.

    The board class ([isolation.Board]) is not part of the sources: the
    search and the heuristics reach it through a handful of methods only,
    which are taken as the interfaces [Provider] and [BoardQueries]. *)

From Stdlib Require Import ZArith List Bool Lia String QArith.
Import ListNotations.

#[local] Open Scope Z_scope.

(** ** Values *)

(** Python floats as the code uses them: [float('-inf')], [float('inf')] and
    the finite values in between.  Every finite value the repository computes
    is [float] of an integer (or the integer [0]), so finite values are
    integers here; only their order matters to the search. *)
Inductive pyfloat : Type :=
| NegInf
| Fin (z : Z)
| PosInf.

(** A move or a board location: a [(row, col)] tuple. *)
Definition Move : Type := (Z * Z)%type.

(** What the searches return: a [(score, move)] tuple. *)
Definition result : Type := (pyfloat * Move)%type.

Module Float.

Definition eqb (a b : pyfloat) : bool :=
  match a, b with
  | NegInf, NegInf => true
  | Fin x, Fin y => x =? y
  | PosInf, PosInf => true
  | _, _ => false
  end.

Definition ltb (a b : pyfloat) : bool :=
  match a, b with
  | NegInf, NegInf => false
  | NegInf, _ => true
  | Fin _, NegInf => false
  | Fin x, Fin y => x <? y
  | Fin _, PosInf => true
  | PosInf, _ => false
  end.

(** [a <= b] on floats (there is no NaN in this program). *)
Definition leb (a b : pyfloat) : bool := negb (ltb b a).

(** Python's [max(a, b)]: the first argument is kept unless the second is
    strictly greater. *)
Definition max (a b : pyfloat) : pyfloat := if ltb a b then b else a.

(** Python's [min(a, b)]: the first argument is kept unless the second is
    strictly smaller. *)
Definition min (a b : pyfloat) : pyfloat := if ltb b a then b else a.

End Float.

Module Tuple.

Definition move_eqb (a b : Move) : bool :=
  (fst a =? fst b) && (snd a =? snd b).

(** Python compares tuples lexicographically: the first differing
    component decides. *)
Definition move_ltb (a b : Move) : bool :=
  if fst a =? fst b then snd a <? snd b else fst a <? fst b.

Definition eqb (a b : result) : bool :=
  Float.eqb (fst a) (fst b) && move_eqb (snd a) (snd b).

Definition ltb (a b : result) : bool :=
  if Float.eqb (fst a) (fst b) then move_ltb (snd a) (snd b)
  else Float.ltb (fst a) (fst b).

(** [max(a, b)] and [min(a, b)] on [(score, move)] tuples. *)
Definition max (a b : result) : result := if ltb a b then b else a.
Definition min (a b : result) : result := if ltb b a then b else a.

End Tuple.

(** ** Exceptions and the clock *)

Inductive exn : Type :=
| Timeout
| UnboundLocalError (name : string)
| NameError (name : string).

Inductive res (A : Type) : Type :=
| Ok (a : A)
| Raise (e : exn).

Arguments Ok {A} a.
Arguments Raise {A} e.

(** A computation of the agent: the state is the number of calls made to
    [time_left()] so far, the outcome a value or a raised exception. *)
Definition M (A : Type) : Type := nat -> res A * nat.

Definition ret {A} (a : A) : M A := fun k => (Ok a, k).

Definition raise {A} (e : exn) : M A := fun k => (Raise e, k).

Definition bind {A B} (c : M A) (f : A -> M B) : M B :=
  fun k =>
    match c k with
    | (Ok a, k') => f a k'
    | (Raise e, k') => (Raise e, k')
    end.

Notation "x <- c1 ;; c2" := (bind c1 (fun x => c2))
  (at level 61, c1 at next level, right associativity).

(** ** The game-state provider *)

(** The methods of [isolation.Board] the searches call.  [get_legal_moves]
    is [game.get_legal_moves()], the moves of the player to move, in the
    board's enumeration order.  [get_player_location] is taken to return a
    [(row, col)] pair, as the board does for a player who is on it. *)
Class Provider (Board Player : Type) : Type := {
  get_legal_moves : Board -> list Move;
  forecast_move : Board -> Move -> Board;
  get_player_location : Board -> Player -> Move
}.

(** ** [game_agent.py] *)

Section Agent.

Context {Board Player : Type} {provider : Provider Board Player}.

(** [custom_score]: the number of moves of the player to move, as a float;
    the [player] argument is not used. *)
Definition custom_score (game : Board) (player : Player) : pyfloat :=
  Fin (Z.of_nat (List.length (get_legal_moves game))).

(** The attributes of a [CustomPlayer].  [me] is the object itself, as it
    is handed to [score] and to [get_player_location]; [time_left] is the
    accessor [get_move] stores: its [k]-th call (from 0) returns
    [time_left k] milliseconds.  [score] is an evaluation function whose
    calls return a float, as the three of [game_agent.py] and the first two
    of [heuristics.py] do; [self.score] may be any callable, and for one
    whose calls may raise the searches are [minimax_with] and
    [get_move_with] below, which agree with [minimax] and [get_move] when
    it raises nothing. *)
Record CustomPlayer : Type := {
  search_depth : Z;
  score : Board -> Player -> pyfloat;
  iterative : bool;
  method : string;
  time_left : nat -> Z;
  TIMER_THRESHOLD : Z;
  me : Player
}.

Definition set_time_left (self : CustomPlayer) (f : nat -> Z) : CustomPlayer :=
  {| search_depth := search_depth self;
     score := score self;
     iterative := iterative self;
     method := method self;
     time_left := f;
     TIMER_THRESHOLD := TIMER_THRESHOLD self;
     me := me self |}.

(** [self.time_left()] *)
Definition call_time_left (self : CustomPlayer) : M Z :=
  fun k => (Ok (time_left self k), S k).

(** [if self.time_left() < self.TIMER_THRESHOLD: raise Timeout()] *)
Definition time_guard (self : CustomPlayer) : M unit :=
  t <- call_time_left self ;;
  if t <? TIMER_THRESHOLD self then raise Timeout else ret tt.

Definition NO_MOVE : Move := (-1, -1).

(** The leaf of all three searches:
    [(self.score(game, self), game.get_player_location(self))]. *)
Definition leaf (self : CustomPlayer) (game : Board) : result :=
  (score self game (me self), get_player_location game (me self)).

(** *** minimax *)

(** The [for lm in legal_moves] loop of [minimax]; [rec] is the recursive
    call [self.minimax(_, depth - 1, maximizing_player)]. *)
Definition minimax_loop (rec : Board -> M result)
    (optimizer : result -> result -> result) (game : Board)
  : list Move -> result -> M result :=
  fix loop (legal_moves : list Move) (best_score : result) : M result :=
    match legal_moves with
    | [] => ret best_score
    | lm :: rest =>
        score <- rec (forecast_move game lm) ;;
        let best_score := optimizer best_score score in
        let best_score :=
          if Tuple.eqb best_score score then (fst best_score, lm)
          else best_score in
        loop rest best_score
    end.

(** [minimax] for a depth given by [n = Z.to_nat depth]: the code reads
    [depth] only in [depth <= 0] and [depth - 1]. *)
Fixpoint minimax_n (self : CustomPlayer) (n : nat) (game : Board)
    (maximizing_player : bool) {struct n} : M result :=
  _ <- time_guard self ;;
  let legal_moves := get_legal_moves game in
  let '(optimizer, temp_score) :=
    if maximizing_player then (Tuple.max, NegInf) else (Tuple.min, PosInf) in
  let best_score := (temp_score, (0, 0)) in
  match legal_moves with
  | [] => ret (Fin 0, NO_MOVE)
  | _ :: _ =>
      match n with
      | O => ret (leaf self game)
      | S n' =>
          minimax_loop (fun g => minimax_n self n' g maximizing_player)
            optimizer game legal_moves best_score
      end
  end.

Definition minimax (self : CustomPlayer) (game : Board) (depth : Z)
    (maximizing_player : bool) : M result :=
  minimax_n self (Z.to_nat depth) game maximizing_player.

(** *** alphabeta *)

(** [return (best_score, best_move)]: [best_move] is a local that is bound
    only once some move has improved on the initial [best_score]. *)
Definition return_best (best_score : pyfloat) (best_move : option Move)
  : M result :=
  match best_move with
  | Some m => ret (best_score, m)
  | None => raise (UnboundLocalError "best_move")
  end.

(** The loop of [alphabeta_max]; [rec] is [self.alphabeta_min] at
    [depth - 1]. *)
Definition alphabeta_max_loop
    (rec : Board -> pyfloat -> pyfloat -> M result)
    (game : Board) (beta : pyfloat)
  : list Move -> pyfloat -> option Move -> pyfloat -> M result :=
  fix loop legal_moves best_score best_move alpha : M result :=
    match legal_moves with
    | [] => return_best best_score best_move
    | lm :: rest =>
        r <- rec (forecast_move game lm) alpha beta ;;
        let score := fst r in
        let '(best_score, best_move) :=
          if Float.ltb best_score score then (score, Some lm)
          else (best_score, best_move) in
        if Float.leb beta best_score then return_best best_score best_move
        else loop rest best_score best_move (Float.max alpha best_score)
    end.

(** The loop of [alphabeta_min]; [rec] is [self.alphabeta_max] at
    [depth - 1]. *)
Definition alphabeta_min_loop
    (rec : Board -> pyfloat -> pyfloat -> M result)
    (game : Board) (alpha : pyfloat)
  : list Move -> pyfloat -> option Move -> pyfloat -> M result :=
  fix loop legal_moves best_score best_move beta : M result :=
    match legal_moves with
    | [] => return_best best_score best_move
    | lm :: rest =>
        r <- rec (forecast_move game lm) alpha beta ;;
        let score := fst r in
        let '(best_score, best_move) :=
          if Float.ltb score best_score then (score, Some lm)
          else (best_score, best_move) in
        if Float.leb best_score alpha then return_best best_score best_move
        else loop rest best_score best_move (Float.min beta best_score)
    end.

Fixpoint alphabeta_max_n (self : CustomPlayer) (n : nat) (game : Board)
    (alpha beta : pyfloat) {struct n} : M result :=
  match n with
  | O => ret (leaf self game)
  | S n' =>
      alphabeta_max_loop (alphabeta_min_n self n') game beta
        (get_legal_moves game) NegInf None alpha
  end
with alphabeta_min_n (self : CustomPlayer) (n : nat) (game : Board)
    (alpha beta : pyfloat) {struct n} : M result :=
  match n with
  | O => ret (leaf self game)
  | S n' =>
      alphabeta_min_loop (alphabeta_max_n self n') game alpha
        (get_legal_moves game) PosInf None beta
  end.

Definition alphabeta_max (self : CustomPlayer) (game : Board) (depth : Z)
    (alpha beta : pyfloat) : M result :=
  alphabeta_max_n self (Z.to_nat depth) game alpha beta.

Definition alphabeta_min (self : CustomPlayer) (game : Board) (depth : Z)
    (alpha beta : pyfloat) : M result :=
  alphabeta_min_n self (Z.to_nat depth) game alpha beta.

Definition alphabeta (self : CustomPlayer) (game : Board) (depth : Z)
    (alpha beta : pyfloat) (maximizing_player : bool) : M result :=
  _ <- time_guard self ;;
  let alphabeta_version :=
    if maximizing_player then alphabeta_max self else alphabeta_min self in
  alphabeta_version game depth alpha beta.

(** *** get_move *)

(** The [while True] loop of the iterative mode.  It is left only by an
    exception; the outcome is the exception together with [best_move] as
    it stands at that point.  [None]: the loop is still running after
    [fuel] iterations. *)
Fixpoint iterative_loop (fuel : nat) (self : CustomPlayer) (game : Board)
    (iterator : Z) (best_move : result) (k : nat)
  : option (exn * result * nat) :=
  match fuel with
  | O => None
  | S fuel' =>
      match minimax self game iterator true k with
      | (Raise e, k') => Some (e, best_move, k')
      | (Ok r, k') =>
          iterative_loop fuel' self game (iterator + 1)
            (Tuple.max best_move r) k'
      end
  end.

(** [get_move]: the [try] block, [except Timeout: pass] and
    [return best_move[1]].  The argument [legal_moves] is not used by the
    code. *)
Definition get_move (fuel : nat) (self : CustomPlayer) (game : Board)
    (legal_moves : list Move) (time_left : nat -> Z) (k : nat)
  : option (res Move * nat) :=
  let self := set_time_left self time_left in
  let best_move : result := (NegInf, NO_MOVE) in
  if iterative self then
    match iterative_loop fuel self game 1 best_move k with
    | None => None
    | Some (Timeout, best_move, k') => Some (Ok (snd best_move), k')
    | Some (e, _, k') => Some (Raise e, k')
    end
  else
    match get_legal_moves game with
    | [] => Some (Ok (snd best_move), k)
    | _ :: _ =>
        match minimax self game (search_depth self) true k with
        | (Ok r, k') => Some (Ok (snd r), k')
        | (Raise Timeout, k') => Some (Ok (snd best_move), k')
        | (Raise e, k') => Some (Raise e, k')
        end
    end.

End Agent.

(** ** The search as the specification words it

    Section 4.2 of the specification: the recursive call is made with the
    maximizing flag negated, children are combined with max or min by score,
    and on equal scores the first move found is kept.  These definitions
    follow the specification, not the code; they are what [minimax] is
    compared with. *)

Section SpecSearch.

Context {Board Player : Type} {provider : Provider Board Player}.

(** Whether score [s] improves on the best score so far. *)
Definition spec_better (maximizing : bool) (s best : pyfloat) : bool :=
  if maximizing then Float.ltb best s else Float.ltb s best.

Definition spec_combine (rec : Board -> M result) (maximizing : bool)
    (state : Board) : list Move -> option result -> M (option result) :=
  fix loop (moves : list Move) (best : option result) : M (option result) :=
    match moves with
    | [] => ret best
    | m :: rest =>
        r <- rec (forecast_move state m) ;;
        let best :=
          match best with
          | None => Some (fst r, m)
          | Some b =>
              if spec_better maximizing (fst r) (fst b) then Some (fst r, m)
              else Some b
          end in
        loop rest best
    end.

Fixpoint spec_search_n (self : CustomPlayer) (n : nat) (state : Board)
    (maximizing : bool) {struct n} : M result :=
  _ <- time_guard self ;;
  match get_legal_moves state with
  | [] => ret (Fin 0, NO_MOVE)
  | _ :: _ =>
      match n with
      | O => ret (leaf self state)
      | S n' =>
          best <- spec_combine
                    (fun s => spec_search_n self n' s (negb maximizing))
                    maximizing state (get_legal_moves state) None ;;
          match best with
          | Some b => ret b
          | None => ret (Fin 0, NO_MOVE)
          end
      end
  end.

Definition spec_search (self : CustomPlayer) (state : Board) (depth : Z)
    (maximizing : bool) : M result :=
  spec_search_n self (Z.to_nat depth) state maximizing.

End SpecSearch.

(** ** The order on scores and the minimax value of a state

    The vocabulary of the statements about alpha-beta: the order on floats
    as propositions, the minimax value of a state searched [n] plies deep
    with alternating layers, and the states on which the searches can be
    compared. *)

Module Order.

Definition lt (a b : pyfloat) : Prop :=
  match a, b with
  | NegInf, NegInf => False
  | NegInf, _ => True
  | Fin _, NegInf => False
  | Fin x, Fin y => x < y
  | Fin _, PosInf => True
  | PosInf, _ => False
  end.

Definition le (a b : pyfloat) : Prop :=
  match a, b with
  | NegInf, _ => True
  | Fin _, NegInf => False
  | Fin x, Fin y => x <= y
  | Fin _, PosInf => True
  | PosInf, PosInf => True
  | PosInf, _ => False
  end.

Definition same (a b : pyfloat) : Prop :=
  match a, b with
  | NegInf, NegInf => True
  | Fin x, Fin y => x = y
  | PosInf, PosInf => True
  | _, _ => False
  end.

Definition within (v alpha beta r : pyfloat) : Prop :=
  (le v alpha -> le v r /\ le r alpha) /\
  (lt alpha v -> lt v beta -> same r v) /\
  (le beta v -> le beta r /\ le r v).


(** [Float.max] and [Float.min] by cases, as the order sees them. *)
Definition fmax (a b : pyfloat) : pyfloat :=
  match a, b with
  | NegInf, _ => b
  | PosInf, _ => PosInf
  | Fin _, NegInf => a
  | Fin _, PosInf => PosInf
  | Fin x, Fin y => Fin (Z.max x y)
  end.

Definition fmin (a b : pyfloat) : pyfloat :=
  match a, b with
  | PosInf, _ => b
  | NegInf, _ => NegInf
  | Fin _, PosInf => a
  | Fin _, NegInf => NegInf
  | Fin x, Fin y => Fin (Z.min x y)
  end.

End Order.

Section Values.

Context {Board Player : Type} {provider : Provider Board Player}.

(** The value of a state searched [n] plies deep: the evaluation function
    at the leaves, the maximum over the successors on maximizing layers and
    the minimum on minimizing ones, the layers alternating. *)
Fixpoint minimax_value (self : @CustomPlayer Board Player) (n : nat)
    (state : Board) (maximizing : bool) {struct n} : pyfloat :=
  match n with
  | O => score self state (me self)
  | S n' =>
      if maximizing
      then fold_right
             (fun m acc =>
                Float.max (minimax_value self n' (forecast_move state m) false) acc)
             NegInf (get_legal_moves state)
      else fold_right
             (fun m acc =>
                Float.min (minimax_value self n' (forecast_move state m) true) acc)
             PosInf (get_legal_moves state)
  end.

(** A state is regular [n] plies deep when every state within [n] plies of
    it has a legal move and the evaluation function is finite on the states
    exactly [n] plies away. *)
Fixpoint regular (self : @CustomPlayer Board Player) (n : nat) (state : Board)
    {struct n} : Prop :=
  get_legal_moves state <> [] /\
  match n with
  | O => exists z, score self state (me self) = Fin z
  | S n' =>
      forall m, In m (get_legal_moves state) ->
                regular self n' (forecast_move state m)
  end.

Definition finite_part (x : pyfloat) : Z :=
  match x with
  | Fin z => z
  | _ => 0
  end.

(** The first legal move, in enumeration order, whose successor has
    value [v]. *)
Definition first_optimal (self : @CustomPlayer Board Player) (n' : nat)
    (state : Board) (maximizing : bool) (v : pyfloat) : option Move :=
  find (fun m =>
          Float.eqb (minimax_value self n' (forecast_move state m)
                       (negb maximizing)) v)
       (get_legal_moves state).

(** The value of the successor after move [m], as an integer. *)
Definition child_value (self : @CustomPlayer Board Player) (n' : nat)
    (state : Board) (maximizing : bool) (m : Move) : Z :=
  finite_part (minimax_value self n' (forecast_move state m) (negb maximizing)).

(** The loops are studied over a list of moves whose successors have the
    integer values [cv]: the largest and the smallest of them, and the first
    move with a given value. *)
Definition highest (cv : Move -> Z) (rest : list Move) : pyfloat :=
  fold_right (fun m acc => Float.max (Fin (cv m)) acc) NegInf rest.

Definition lowest (cv : Move -> Z) (rest : list Move) : pyfloat :=
  fold_right (fun m acc => Float.min (Fin (cv m)) acc) PosInf rest.

Definition first_with (cv : Move -> Z) (w : pyfloat) (rest : list Move)
  : option Move :=
  find (fun m => Float.eqb (Fin (cv m)) w) rest.

(** [rec] answers a windowed search of each successor without touching the
    clock, with a score that is exact inside the window and a bound
    outside. *)
Definition answers (rec : Board -> pyfloat -> pyfloat -> M result)
    (game : Board) (cv : Move -> Z) (rest : list Move) : Prop :=
  forall m, In m rest -> forall a b k, Order.lt a b ->
    exists z mv, rec (forecast_move game m) a b k = (Ok (Fin z, mv), k) /\
                 Order.within (Fin (cv m)) a b (Fin z).

(** [rec] evaluates each successor to its value. *)
Definition evaluates (rec : Board -> M result) (state : Board)
    (cv : Move -> Z) (rest : list Move) : Prop :=
  forall m, In m rest -> forall k,
    exists mv k', rec (forecast_move state m) k = (Ok (Fin (cv m), mv), k').

End Values.

(** ** A provider given by an explicit game tree

    A node carries the location the provider reports for the agent, the
    value the evaluation function gives the node, and its successors in
    enumeration order. *)

#[warnings="-register-all"]
Inductive tree : Type :=
| Node (loc : Move) (val : pyfloat) (kids : list (Move * tree)).

Module Tree.

Definition loc (t : tree) : Move := let 'Node l _ _ := t in l.
Definition val (t : tree) : pyfloat := let 'Node _ v _ := t in v.
Definition kids (t : tree) : list (Move * tree) := let 'Node _ _ ks := t in ks.

Definition moves (t : tree) : list Move := map fst (kids t).

Definition apply (t : tree) (m : Move) : tree :=
  match find (fun c => Tuple.move_eqb (fst c) m) (kids t) with
  | Some c => snd c
  | None => t
  end.

#[global] Instance provider : Provider tree unit := {|
  get_legal_moves := moves;
  forecast_move := apply;
  get_player_location := fun t _ => loc t
|}.

(** A player on trees: the evaluation function reads the node's value. *)
Definition player (depth : Z) (iter : bool) (meth : string)
    (clock : nat -> Z) (threshold : Z) : CustomPlayer :=
  {| search_depth := depth;
     score := fun t _ => val t;
     iterative := iter;
     method := meth;
     time_left := clock;
     TIMER_THRESHOLD := threshold;
     me := tt |}.

(** A state with no legal move. *)
Definition dead (l : Move) (v : pyfloat) : tree := Node l v [].

(** A state with one legal move, leading to a dead end. *)
Definition open (l : Move) (v : pyfloat) : tree :=
  Node l v [((0, 0), dead (0, 0) (Fin 0))].

(** A clock that never comes near the threshold [0]. *)
Definition plenty : nat -> Z := fun _ => 1000.

(** A clock that loses 100 ms at every reading. *)
Definition ticking : nat -> Z := fun k => 1000 - 100 * Z.of_nat k.

Definition A : Move := (0, 1).
Definition B : Move := (1, 0).

(** Two moves; the opponent answers each with one of two replies. *)
Definition two_ply : tree :=
  Node (2, 2) (Fin 0)
    [ (A, Node A (Fin 0) [ ((3, 3), open (0, 1) (Fin 1));
                           ((3, 4), open (0, 1) (Fin 9)) ]);
      (B, Node B (Fin 0) [ ((3, 3), open (1, 0) (Fin 4));
                           ((3, 4), open (1, 0) (Fin 5)) ]) ].

(** Two moves of equal value. *)
Definition tie : tree :=
  Node (2, 2) (Fin 0) [ (A, open A (Fin 5)); (B, open B (Fin 5)) ].

(** [A] looks better at depth 1, [B] is better at depth 2. *)
Definition deepening : tree :=
  Node (2, 2) (Fin 0)
    [ (A, Node A (Fin 5) [ ((3, 3), open A (Fin 1)) ]);
      (B, Node B (Fin 4) [ ((3, 3), open B (Fin 2)) ]) ].

End Tree.

(** ** [heuristics.py] *)

(** The further methods and attributes of [isolation.Board] the heuristics
    use.  [get_legal_moves_of] is [game.get_legal_moves(player)]. *)
Class BoardQueries (Board Player : Type) : Type := {
  is_loser : Board -> Player -> bool;
  is_winner : Board -> Player -> bool;
  get_legal_moves_of : Board -> Player -> list Move;
  get_opponent : Board -> Player -> Player;
  move_is_legal : Board -> Move -> bool;
  width : Board -> Z;
  height : Board -> Z;
  get_blank_spaces : Board -> list Move
}.

(** The tables of [future_moves_weight].  A dict is iterated in insertion
    order, so each is the list of its items. *)
Module Directions.

(* 3th level *)
Definition row_minus_one_column_cero : list Move := [(-2, -2); (-2, 2)].
Definition row_plus_one_column_cero : list Move := [(2, -2); (2, 2)].
Definition row_cero_column_minus_one : list Move := [(-2, -2); (-2, 2)].
Definition row_cero_column_plus_one : list Move := [(-2, 2); (2, 2)].

(* 2nd level *)
Definition row_cero_column_minus_two : list (Move * list Move) :=
  [ ((-1, 0), row_minus_one_column_cero);
    ((1, 0), row_plus_one_column_cero) ].
Definition row_minus_one_column_plus_one : list (Move * list Move) :=
  [ ((0, -1), row_cero_column_minus_one);
    ((1, 0), row_plus_one_column_cero) ].
Definition row_minus_two_column_cero : list (Move * list Move) :=
  [ ((0, -1), row_cero_column_minus_one);
    ((0, 1), row_cero_column_plus_one) ].
Definition row_plus_one_column_minus_one : list (Move * list Move) :=
  [ ((-1, 0), row_minus_one_column_cero);
    ((0, 1), row_cero_column_plus_one) ].
Definition row_minus_one_column_minus_one : list (Move * list Move) :=
  [ ((0, 1), row_cero_column_plus_one);
    ((1, 0), row_plus_one_column_cero) ].
Definition row_plus_two_column_cero : list (Move * list Move) :=
  [ ((0, -1), row_cero_column_minus_one);
    ((0, 1), row_cero_column_plus_one) ].
Definition row_plus_one_column_plus_one : list (Move * list Move) :=
  [ ((-1, 0), row_minus_one_column_cero);
    ((0, -1), row_cero_column_minus_one) ].
Definition row_cero_column_plus_two : list (Move * list Move) :=
  [ ((-1, 0), row_minus_one_column_cero);
    ((1, 0), row_plus_one_column_cero) ].

(* 1st level *)
Definition directions
  : list (Move * list (Move * list (Move * list Move))) :=
  [ ((-2, -1), [ ((0, -2), row_cero_column_minus_two);
                 ((-1, 1), row_minus_one_column_plus_one) ]);
    ((-1, -2), [ ((-2, 0), row_minus_two_column_cero);
                 ((1, -1), row_plus_one_column_minus_one) ]);
    ((1, -2), [ ((-1, -1), row_minus_one_column_minus_one);
                ((2, 0), row_plus_two_column_cero) ]);
    ((2, -1), [ ((0, -2), row_cero_column_minus_two);
                ((1, 1), row_plus_one_column_plus_one) ]);
    ((2, 1), [ ((0, 2), row_cero_column_plus_two);
               ((1, -1), row_minus_one_column_minus_one) ]);
    ((1, 2), [ ((-1, 1), row_minus_one_column_plus_one);
               ((2, 0), row_plus_two_column_cero) ]);
    ((-1, 2), [ ((-2, 0), row_minus_two_column_cero);
                ((1, 1), row_plus_one_column_plus_one) ]) ].

End Directions.

Section Heuristics.

Context {Board Player : Type} {provider : Provider Board Player}
        {queries : BoardQueries Board Player}.

Definition weighted_improved_score (game : Board) (player : Player)
  : pyfloat :=
  if is_loser game player then NegInf
  else if is_winner game player then PosInf
  else
    let own_moves := Z.of_nat (List.length (get_legal_moves_of game player)) in
    let opp_moves :=
      Z.of_nat (List.length
                  (get_legal_moves_of game (get_opponent game player))) in
    Fin (10 * own_moves - 5 * opp_moves).

(** [(row + row_k, col + col_k)]: every level is an offset from the
    player's own location. *)
Definition offset (row col : Z) (direction : Move) : Move :=
  (row + fst direction, col + snd direction).

(** The four nested loops of [future_moves_weight], innermost first. *)
Definition weight_four (game : Board) (row col : Z)
    (table : list Move) (score : Z) : Z :=
  fold_left
    (fun score direction_four =>
       if move_is_legal game (offset row col direction_four)
       then score + 16 else score)
    table score.

Definition weight_three (game : Board) (row col : Z)
    (table : list (Move * list Move)) (score : Z) : Z :=
  fold_left
    (fun score item =>
       let '(direction_three, below) := item in
       if move_is_legal game (offset row col direction_three)
       then weight_four game row col below (score + 8) else score)
    table score.

Definition weight_two (game : Board) (row col : Z)
    (table : list (Move * list (Move * list Move))) (score : Z) : Z :=
  fold_left
    (fun score item =>
       let '(direction_two, below) := item in
       if move_is_legal game (offset row col direction_two)
       then weight_three game row col below (score + 4) else score)
    table score.

Definition weight_one (game : Board) (row col : Z)
    (table : list (Move * list (Move * list (Move * list Move))))
    (score : Z) : Z :=
  fold_left
    (fun score item =>
       let '(direction_one, below) := item in
       if move_is_legal game (offset row col direction_one)
       then weight_two game row col below (score + 1) else score)
    table score.

Definition future_moves_weight (game : Board) (player : Player) : pyfloat :=
  if is_loser game player then NegInf
  else if is_winner game player then PosInf
  else
    let score := 0 in
    let '(row, col) := get_player_location game player in
    Fin (weight_one game row col Directions.directions score).

(** [game.width * game.height / 2 > len(game.get_blank_spaces())], with
    Python 3's true division. *)
Definition less_than_half_blank (game : Board) : bool :=
  negb (Qle_bool (inject_Z (width game * height game) / 2)
                 (inject_Z (Z.of_nat (List.length (get_blank_spaces game))))).

(** [mixed_heuristic].  The name [difference_player_biased] is bound
    nowhere in [heuristics.py] (the module imports nothing), so reaching
    the call raises [NameError]. *)
Definition mixed_heuristic (game : Board) (player : Player) : res pyfloat :=
  if less_than_half_blank game
  then Ok (future_moves_weight game player)
  else Raise (NameError "difference_player_biased").

(** The contract the specification asks of an evaluation function, at one
    state and player, and at all of them. *)
Definition contract_at (evaluate : Board -> Player -> pyfloat)
    (state : Board) (player : Player) : Prop :=
  (is_winner state player = true -> evaluate state player = PosInf) /\
  (is_loser state player = true -> evaluate state player = NegInf) /\
  (is_winner state player = false -> is_loser state player = false ->
   exists z, evaluate state player = Fin z).

Definition satisfies_contract (evaluate : Board -> Player -> pyfloat) : Prop :=
  forall (state : Board) (player : Player), contract_at evaluate state player.

End Heuristics.

(** ** A small concrete Isolation board

    Knight moves on a [g_width] x [g_height] grid; a player with no move
    when it is their turn has lost.  It implements both interfaces and is
    used to run the heuristics on examples. *)
Module Grid.

Record board : Type := {
  g_width : Z;
  g_height : Z;
  g_blank : list Move;
  g_first : Move;
  g_second : Move;
  g_first_to_move : bool
}.

(** Players: [true] is the first player, [false] the second. *)
Definition location (b : board) (p : bool) : Move :=
  if p then g_first b else g_second b.

Definition legal (b : board) (m : Move) : bool :=
  (0 <=? fst m) && (fst m <? g_height b) &&
  (0 <=? snd m) && (snd m <? g_width b) &&
  existsb (Tuple.move_eqb m) (g_blank b).

Definition jumps : list Move :=
  [(-2, -1); (-2, 1); (-1, -2); (-1, 2); (1, -2); (1, 2); (2, -1); (2, 1)].

Definition moves_of (b : board) (p : bool) : list Move :=
  filter (legal b)
    (map (fun d => (fst (location b p) + fst d, snd (location b p) + snd d))
         jumps).

Definition stuck (b : board) : bool :=
  match moves_of b (g_first_to_move b) with [] => true | _ => false end.

Definition play (b : board) (m : Move) : board :=
  {| g_width := g_width b;
     g_height := g_height b;
     g_blank := filter (fun c => negb (Tuple.move_eqb c m)) (g_blank b);
     g_first := if g_first_to_move b then m else g_first b;
     g_second := if g_first_to_move b then g_second b else m;
     g_first_to_move := negb (g_first_to_move b) |}.

#[global] Instance provider : Provider board bool := {|
  get_legal_moves := fun b => moves_of b (g_first_to_move b);
  forecast_move := play;
  get_player_location := location
|}.

#[global] Instance queries : BoardQueries board bool := {|
  is_loser := fun b p => Bool.eqb p (g_first_to_move b) && stuck b;
  is_winner := fun b p => Bool.eqb p (negb (g_first_to_move b)) && stuck b;
  get_legal_moves_of := moves_of;
  get_opponent := fun _ p => negb p;
  move_is_legal := legal;
  width := g_width;
  height := g_height;
  get_blank_spaces := g_blank
|}.

(** A 3 x 3 board after the two opening placements: the first player
    chose the centre, from which no knight move exists, the second a
    corner, and the first player is to move: the first player has lost and
    the second has won. *)
Definition centre_start : board :=
  {| g_width := 3;
     g_height := 3;
     g_blank := [(0, 1); (0, 2); (1, 0); (1, 2); (2, 0); (2, 1); (2, 2)];
     g_first := (1, 1);
     g_second := (0, 0);
     g_first_to_move := true |}.

(** The two players the other way round, the first to move: nobody has
    won. *)
Definition centre_open : board :=
  {| g_width := 3;
     g_height := 3;
     g_blank := [(0, 1); (0, 2); (1, 0); (1, 2); (2, 0); (2, 1); (2, 2)];
     g_first := (0, 0);
     g_second := (1, 1);
     g_first_to_move := true |}.

End Grid.

(** ** Vocabulary of the statements *)

Section Vocabulary.

Context {Board Player : Type} {provider : Provider Board Player}.

(** Every reading of the clock from call [k] up to call [k'] (excluded)
    was at or above the threshold. *)
Definition readings_pass (self : @CustomPlayer Board Player) (k k' : nat) : Prop :=
  forall j, (k <= j < k')%nat -> TIMER_THRESHOLD self <= time_left self j.

(** A computation that only moves the clock forward, completes only if all
    its readings passed the guard, and raises nothing but [Timeout]. *)
Definition guarded {A} (self : @CustomPlayer Board Player) (c : M A) : Prop :=
  forall k r k',
    c k = (r, k') ->
    (k <= k')%nat /\
    match r with
    | Ok _ => readings_pass self k k'
    | Raise e => e = Timeout
    end.

(** What the time guard does at call [k]. *)
Definition guard_then {A} (self : @CustomPlayer Board Player) (k : nat) (a : A)
  : res A * nat :=
  if time_left self k <? TIMER_THRESHOLD self
  then (Raise Timeout, S k) else (Ok a, S k).

Definition with_method (self : @CustomPlayer Board Player) (m : string) : CustomPlayer :=
  {| search_depth := search_depth self;
     score := score self;
     iterative := iterative self;
     method := m;
     time_left := time_left self;
     TIMER_THRESHOLD := TIMER_THRESHOLD self;
     me := me self |}.

End Vocabulary.

(** ** An evaluation function that may raise

    [self.score] is whatever callable the constructor was given, and
    [minimax] and [get_move] catch nothing it raises ([get_move] catches
    [Timeout] only).  The definitions below are [minimax] and [get_move]
    with the call [self.score(game, self)] allowed to raise. *)

Section AnyEvaluation.

Context {Board Player : Type} {provider : Provider Board Player}.

(** [self.score(game, self)] for an evaluation function that may raise:
    the exception passes through the caller. *)
Definition call_score (evaluate : Board -> Player -> res pyfloat)
    (game : Board) (player : Player) : M pyfloat :=
  fun k => (evaluate game player, k).

(** [minimax] with [self.score] any callable, [evaluate], in place of the
    attribute [score] of the record.  The pair of a leaf is built left to
    right: the evaluation function is called first. *)
Fixpoint minimax_with (evaluate : Board -> Player -> res pyfloat)
    (self : @CustomPlayer Board Player) (n : nat) (game : Board)
    (maximizing_player : bool) {struct n} : M result :=
  _ <- time_guard self ;;
  let legal_moves := get_legal_moves game in
  let '(optimizer, temp_score) :=
    if maximizing_player then (Tuple.max, NegInf) else (Tuple.min, PosInf) in
  let best_score := (temp_score, (0, 0)) in
  match legal_moves with
  | [] => ret (Fin 0, NO_MOVE)
  | _ :: _ =>
      match n with
      | O =>
          v <- call_score evaluate game (me self) ;;
          ret (v, get_player_location game (me self))
      | S n' =>
          minimax_loop
            (fun g => minimax_with evaluate self n' g maximizing_player)
            optimizer game legal_moves best_score
      end
  end.

(** The iterative loop and [get_move] over [minimax_with]. *)
Fixpoint iterative_loop_with (evaluate : Board -> Player -> res pyfloat)
    (fuel : nat) (self : @CustomPlayer Board Player) (game : Board)
    (iterator : Z) (best_move : result) (k : nat)
  : option (exn * result * nat) :=
  match fuel with
  | O => None
  | S fuel' =>
      match minimax_with evaluate self (Z.to_nat iterator) game true k with
      | (Raise e, k') => Some (e, best_move, k')
      | (Ok r, k') =>
          iterative_loop_with evaluate fuel' self game (iterator + 1)
            (Tuple.max best_move r) k'
      end
  end.

Definition get_move_with (evaluate : Board -> Player -> res pyfloat)
    (fuel : nat) (self : @CustomPlayer Board Player) (game : Board)
    (legal_moves : list Move) (time_left : nat -> Z) (k : nat)
  : option (res Move * nat) :=
  let self := set_time_left self time_left in
  let best_move : result := (NegInf, NO_MOVE) in
  if iterative self then
    match iterative_loop_with evaluate fuel self game 1 best_move k with
    | None => None
    | Some (Timeout, best_move, k') => Some (Ok (snd best_move), k')
    | Some (e, _, k') => Some (Raise e, k')
    end
  else
    match get_legal_moves game with
    | [] => Some (Ok (snd best_move), k)
    | _ :: _ =>
        match minimax_with evaluate self (Z.to_nat (search_depth self)) game
                true k with
        | (Ok r, k') => Some (Ok (snd r), k')
        | (Raise Timeout, k') => Some (Ok (snd best_move), k')
        | (Raise e, k') => Some (Raise e, k')
        end
    end.

(** [evaluate] raises [e] on some state, for the player [self]. *)
Definition evaluation_raises (evaluate : Board -> Player -> res pyfloat)
    (self : @CustomPlayer Board Player) (e : exn) : Prop :=
  exists game, evaluate game (me self) = Raise e.

(** A computation that is left in one of three ways: with a result, all
    its readings of the clock having passed; by [Timeout] at its last
    reading, the first one below the threshold; or by an exception of the
    evaluation function, all its readings having passed. *)
Definition cancels_or_fails {A} (evaluate : Board -> Player -> res pyfloat)
    (self : @CustomPlayer Board Player) (c : M A) : Prop :=
  forall k r k',
    c k = (r, k') ->
    (k <= k')%nat /\
    match r with
    | Ok _ => readings_pass self k k'
    | Raise e =>
        (e = Timeout /\ (k < k')%nat /\
         readings_pass self k (Nat.pred k') /\
         time_left self (Nat.pred k') < TIMER_THRESHOLD self) \/
        (readings_pass self k k' /\ evaluation_raises evaluate self e)
    end.

End AnyEvaluation.

(** ** Further vocabulary *)

Section CodeValue.

Context {Board Player : Type} {provider : Provider Board Player}.

(** The score [minimax] computes: 0 on a state without legal moves, the
    evaluation function at depth 0, and below that the maximum of the
    successors' scores when called with [maximizing_player = True], their
    minimum when called with [False], on every layer alike. *)
Fixpoint one_sided_value (self : @CustomPlayer Board Player) (n : nat)
    (state : Board) (maximizing_player : bool) {struct n} : pyfloat :=
  match get_legal_moves state with
  | [] => Fin 0
  | _ :: _ =>
      match n with
      | O => score self state (me self)
      | S n' =>
          fold_left
            (fun best lm =>
               (if maximizing_player then Float.max else Float.min) best
                 (one_sided_value self n' (forecast_move state lm)
                    maximizing_player))
            (get_legal_moves state)
            (if maximizing_player then NegInf else PosInf)
      end
  end.

(** An evaluation function that is finite on every state. *)
Definition finite_evaluation (self : @CustomPlayer Board Player) : Prop :=
  forall state, exists z, score self state (me self) = Fin z.

End CodeValue.

Section Iterations.

Context {Board Player : Type} {provider : Provider Board Player}.

(** The results of the iterations the iterative loop completes, in order:
    those of [minimax] at depths [iterator], [iterator + 1], ... up to the
    first one that raises. *)
Fixpoint completed_iterations (fuel : nat) (self : @CustomPlayer Board Player)
    (game : Board) (iterator : Z) (k : nat) : list result :=
  match fuel with
  | O => []
  | S fuel' =>
      match minimax self game iterator true k with
      | (Ok r, k') =>
          r :: completed_iterations fuel' self game (iterator + 1) k'
      | (Raise _, _) => []
      end
  end.

End Iterations.

Module Cap.

(** What each level of the tables of [future_moves_weight] can add at most:
    16 for a fourth-level direction, 8, 4 and 1 for the levels above, each
    with what lies below it. *)
Definition four (table : list Move) : Z := 16 * Z.of_nat (List.length table).

Definition three (table : list (Move * list Move)) : Z :=
  fold_right (fun item acc => 8 + four (snd item) + acc) 0 table.

Definition two (table : list (Move * list (Move * list Move))) : Z :=
  fold_right (fun item acc => 4 + three (snd item) + acc) 0 table.

Definition one (table : list (Move * list (Move * list (Move * list Move))))
  : Z :=
  fold_right (fun item acc => 1 + two (snd item) + acc) 0 table.

(** The directions each level of the tables asks [move_is_legal] about. *)
Definition asked_three (table : list (Move * list Move)) : list Move :=
  flat_map (fun item => fst item :: snd item) table.

Definition asked_two (table : list (Move * list (Move * list Move)))
  : list Move :=
  flat_map (fun item => fst item :: asked_three (snd item)) table.

Definition asked_one
    (table : list (Move * list (Move * list (Move * list Move))))
  : list Move :=
  flat_map (fun item => fst item :: asked_two (snd item)) table.

End Cap.

(** ** Further concrete inputs *)

Module Examples.

(** A player on trees whose evaluation function is [custom_score]. *)
Definition counting (depth : Z) (iter : bool) (clock : nat -> Z)
    (threshold : Z) : @CustomPlayer tree unit :=
  {| search_depth := depth;
     score := custom_score;
     iterative := iter;
     method := "minimax";
     time_left := clock;
     TIMER_THRESHOLD := threshold;
     me := tt |}.

(** A player on the knight board, the first one, whose evaluation function
    is [custom_score]. *)
Definition knight (depth : Z) (iter : bool) (clock : nat -> Z)
    (threshold : Z) : @CustomPlayer Grid.board bool :=
  {| search_depth := depth;
     score := custom_score;
     iterative := iter;
     method := "minimax";
     time_left := clock;
     TIMER_THRESHOLD := threshold;
     me := true |}.

(** Two moves, both to states the evaluation function gives -inf. *)
Definition all_lost : tree :=
  Node (2, 2) (Fin 0)
    [ (Tree.A, Tree.open Tree.A NegInf); (Tree.B, Tree.open Tree.B NegInf) ].

(** All the cells of a [w] x [h] board. *)
Definition cells (w h : nat) : list Move :=
  flat_map (fun r => map (fun c => (Z.of_nat r, Z.of_nat c)) (seq 0 w)) (seq 0 h).

(** A 7 x 7 board with the first player on the centre and the second in a
    corner: every cell the tables of [future_moves_weight] ask about is
    free. *)
Definition open_field : Grid.board :=
  {| Grid.g_width := 7;
     Grid.g_height := 7;
     Grid.g_blank :=
       filter (fun c => negb (Tuple.move_eqb c (3, 3)) &&
                        negb (Tuple.move_eqb c (0, 0))) (cells 7 7);
     Grid.g_first := (3, 3);
     Grid.g_second := (0, 0);
     Grid.g_first_to_move := true |}.

(** A 3 x 3 board with the first player in a corner, and the same board
    with the cell of its (-2, +1) jump blocked. *)
Definition corner_blocked : Grid.board :=
  {| Grid.g_width := 3;
     Grid.g_height := 3;
     Grid.g_blank := [(0, 0); (0, 2); (1, 0); (1, 2); (2, 1); (2, 2)];
     Grid.g_first := (2, 0);
     Grid.g_second := (1, 1);
     Grid.g_first_to_move := true |}.

Definition corner_free : Grid.board :=
  {| Grid.g_width := 3;
     Grid.g_height := 3;
     Grid.g_blank := (0, 1) :: Grid.g_blank corner_blocked;
     Grid.g_first := (2, 0);
     Grid.g_second := (1, 1);
     Grid.g_first_to_move := true |}.

End Examples.

(** ** Properties of the search *)

Section SearchFacts.

Context {Board Player : Type} {provider : Provider Board Player}.

Variable self : @CustomPlayer Board Player.

Lemma time_guard_run (k : nat) :
  time_guard self k = guard_then self k tt.
Proof.
  unfold time_guard, guard_then, bind, call_time_left, raise, ret.
  destruct (time_left self k <? TIMER_THRESHOLD self); reflexivity.
Qed.

Lemma guard_bind {A} (c : unit -> M A) (k : nat) :
  bind (time_guard self) c k =
  if time_left self k <? TIMER_THRESHOLD self
  then (Raise Timeout, S k) else c tt (S k).
Proof.
  unfold bind at 1. rewrite time_guard_run. unfold guard_then.
  destruct (time_left self k <? TIMER_THRESHOLD self); reflexivity.
Qed.

(** The equations of [minimax] in terms of the integer depth. *)
Lemma minimax_leaf_eq (game : Board) (depth : Z) (mp : bool) :
  depth <= 0 ->
  minimax self game depth mp =
  (_ <- time_guard self ;;
   match get_legal_moves game with
   | [] => ret (Fin 0, NO_MOVE)
   | _ :: _ => ret (leaf self game)
   end).
Proof.
  intros Hd. unfold minimax.
  replace (Z.to_nat depth) with 0%nat by lia.
  simpl. destruct mp; reflexivity.
Qed.

Lemma minimax_node_eq (game : Board) (depth : Z) (mp : bool) :
  0 < depth ->
  minimax self game depth mp =
  (_ <- time_guard self ;;
   match get_legal_moves game with
   | [] => ret (Fin 0, NO_MOVE)
   | _ :: _ =>
       minimax_loop (fun g => minimax self g (depth - 1) mp)
         (if mp then Tuple.max else Tuple.min) game (get_legal_moves game)
         (if mp then NegInf else PosInf, (0, 0))
   end).
Proof.
  intros Hd. unfold minimax.
  replace (Z.to_nat depth) with (S (Z.to_nat (depth - 1))) by lia.
  simpl. destruct mp; reflexivity.
Qed.

(** A state without legal moves: [minimax] answers [(0, (-1, -1))] at
    every depth, once past the time guard. *)
Lemma minimax_no_moves (game : Board) (depth : Z) (mp : bool) (k : nat) :
  get_legal_moves game = [] ->
  minimax self game depth mp k = guard_then self k (Fin 0, NO_MOVE).
Proof.
  intros Hm. unfold minimax.
  destruct (Z.to_nat depth); simpl; rewrite guard_bind; unfold guard_then;
    destruct mp; rewrite Hm; reflexivity.
Qed.

(** [minimax] raises at its entry exactly when the clock is below the
    threshold there. *)
Lemma minimax_entry_guard (game : Board) (depth : Z) (mp : bool) (k : nat) :
  time_left self k < TIMER_THRESHOLD self ->
  minimax self game depth mp k = (Raise Timeout, S k).
Proof.
  intros Ht. apply Z.ltb_lt in Ht. unfold minimax.
  destruct (Z.to_nat depth); simpl; rewrite guard_bind, Ht; reflexivity.
Qed.

(** The equations of the alpha-beta helpers. *)
Lemma alphabeta_max_leaf_eq (game : Board) (depth : Z) (alpha beta : pyfloat) :
  depth <= 0 ->
  alphabeta_max self game depth alpha beta = ret (leaf self game).
Proof.
  intros Hd. unfold alphabeta_max.
  replace (Z.to_nat depth) with 0%nat by lia. reflexivity.
Qed.

Lemma alphabeta_min_leaf_eq (game : Board) (depth : Z) (alpha beta : pyfloat) :
  depth <= 0 ->
  alphabeta_min self game depth alpha beta = ret (leaf self game).
Proof.
  intros Hd. unfold alphabeta_min.
  replace (Z.to_nat depth) with 0%nat by lia. reflexivity.
Qed.

Lemma alphabeta_max_node_eq (game : Board) (depth : Z) (alpha beta : pyfloat) :
  0 < depth ->
  alphabeta_max self game depth alpha beta =
  alphabeta_max_loop (fun g => alphabeta_min self g (depth - 1)) game beta
    (get_legal_moves game) NegInf None alpha.
Proof.
  intros Hd. unfold alphabeta_max, alphabeta_min.
  replace (Z.to_nat depth) with (S (Z.to_nat (depth - 1))) by lia.
  reflexivity.
Qed.

Lemma alphabeta_min_node_eq (game : Board) (depth : Z) (alpha beta : pyfloat) :
  0 < depth ->
  alphabeta_min self game depth alpha beta =
  alphabeta_min_loop (fun g => alphabeta_max self g (depth - 1)) game alpha
    (get_legal_moves game) PosInf None beta.
Proof.
  intros Hd. unfold alphabeta_max, alphabeta_min.
  replace (Z.to_nat depth) with (S (Z.to_nat (depth - 1))) by lia.
  reflexivity.
Qed.

(** A state without legal moves that alpha-beta expands: the loop body
    never runs and [best_move] is read unbound. *)
Lemma alphabeta_no_moves (game : Board) (depth : Z) (alpha beta : pyfloat)
    (mp : bool) (k : nat) :
  get_legal_moves game = [] ->
  0 < depth ->
  TIMER_THRESHOLD self <= time_left self k ->
  alphabeta self game depth alpha beta mp k =
  (Raise (UnboundLocalError "best_move"), S k).
Proof.
  intros Hm Hd Ht. apply Z.ltb_ge in Ht.
  unfold alphabeta. rewrite guard_bind, Ht.
  destruct mp.
  - rewrite alphabeta_max_node_eq by assumption. rewrite Hm. reflexivity.
  - rewrite alphabeta_min_node_eq by assumption. rewrite Hm. reflexivity.
Qed.

(** The alpha-beta helpers never call [time_left]. *)
Lemma alphabeta_helpers_leave_clock (n : nat) :
  forall game alpha beta k,
    snd (alphabeta_max_n self n game alpha beta k) = k /\
    snd (alphabeta_min_n self n game alpha beta k) = k.
Proof.
  induction n as [|n IH]; intros game alpha beta k.
  - split; reflexivity.
  - split; simpl.
    + generalize (@None Move) as bm, NegInf as bs. revert alpha k.
      induction (get_legal_moves game) as [|lm rest IHl];
        intros alpha k bm bs; simpl.
      * destruct bm; reflexivity.
      * unfold bind at 1.
        destruct (alphabeta_min_n self n (forecast_move game lm) alpha beta k)
          as [[r|e] k1] eqn:E;
          pose proof (proj2 (IH (forecast_move game lm) alpha beta k)) as Hk;
          rewrite E in Hk; simpl in Hk; subst k1; [|reflexivity].
        destruct (Float.ltb bs (fst r)); simpl.
        -- destruct (Float.leb beta (fst r)); [reflexivity | apply IHl].
        -- destruct (Float.leb beta bs); [destruct bm; reflexivity | apply IHl].
    + generalize (@None Move) as bm, PosInf as bs. revert beta k.
      induction (get_legal_moves game) as [|lm rest IHl];
        intros beta k bm bs; simpl.
      * destruct bm; reflexivity.
      * unfold bind at 1.
        destruct (alphabeta_max_n self n (forecast_move game lm) alpha beta k)
          as [[r|e] k1] eqn:E;
          pose proof (proj1 (IH (forecast_move game lm) alpha beta k)) as Hk;
          rewrite E in Hk; simpl in Hk; subst k1; [|reflexivity].
        destruct (Float.ltb (fst r) bs); simpl.
        -- destruct (Float.leb (fst r) alpha); [reflexivity | apply IHl].
        -- destruct (Float.leb bs alpha); [destruct bm; reflexivity | apply IHl].
Qed.

(** [alphabeta] reads the clock once, at the root, whatever the depth. *)
Lemma alphabeta_reads_clock_once (game : Board) (depth : Z)
    (alpha beta : pyfloat) (mp : bool) (k : nat) :
  snd (alphabeta self game depth alpha beta mp k) = S k.
Proof.
  unfold alphabeta. rewrite guard_bind.
  destruct (time_left self k <? TIMER_THRESHOLD self); [reflexivity|].
  destruct mp; [apply (proj1 (alphabeta_helpers_leave_clock _ _ _ _ _))
               | apply (proj2 (alphabeta_helpers_leave_clock _ _ _ _ _))].
Qed.

End SearchFacts.

(** ** The time guard through [minimax] and the iterative loop *)

Section Cancellation.

Context {Board Player : Type} {provider : Provider Board Player}.

Variable self : @CustomPlayer Board Player.

Lemma readings_pass_trans (k k1 k2 : nat) :
  readings_pass self k k1 -> readings_pass self k1 k2 ->
  readings_pass self k k2.
Proof.
  intros H1 H2 j Hj. destruct (Nat.lt_ge_cases j k1).
  - apply H1; lia.
  - apply H2; lia.
Qed.

Lemma guarded_ret {A} (a : A) : guarded self (ret a).
Proof.
  intros k r k' E. inversion E; subst. split; [lia|].
  intros j Hj; lia.
Qed.

Lemma guarded_bind {A B} (c : M A) (f : A -> M B) :
  guarded self c -> (forall a, guarded self (f a)) ->
  guarded self (bind c f).
Proof.
  intros Hc Hf k r k' E. unfold bind in E.
  destruct (c k) as [[a|e] k1] eqn:Ec.
  - destruct (Hc _ _ _ Ec) as [Hle Hp].
    destruct (Hf a _ _ _ E) as [Hle' Hr].
    split; [lia|]. destruct r; [|assumption].
    eapply readings_pass_trans; eassumption.
  - inversion E; subst. exact (Hc _ _ _ Ec).
Qed.

Lemma guarded_time_guard : guarded self (time_guard self).
Proof.
  intros k r k' E. rewrite time_guard_run in E. unfold guard_then in E.
  destruct (time_left self k <? TIMER_THRESHOLD self) eqn:Ht;
    inversion E; subst; split; try lia; try reflexivity.
  intros j Hj. assert (j = k) by lia. subst j. apply Z.ltb_ge, Ht.
Qed.

Lemma minimax_loop_guarded (rec : Board -> M result)
    (optimizer : result -> result -> result) (game : Board) :
  (forall g, guarded self (rec g)) ->
  forall legal_moves best_score,
    guarded self (minimax_loop rec optimizer game legal_moves best_score).
Proof.
  intros Hrec legal_moves.
  induction legal_moves as [|lm rest IH]; intros best_score; simpl.
  - apply guarded_ret.
  - apply guarded_bind; [apply Hrec|]. intros r. apply IH.
Qed.

Lemma minimax_n_guarded (n : nat) :
  forall game mp, guarded self (minimax_n self n game mp).
Proof.
  induction n as [|n IH]; intros game mp; simpl;
    (apply guarded_bind; [apply guarded_time_guard|]); intros [];
    destruct mp; destruct (get_legal_moves game) eqn:Hm;
    try apply guarded_ret;
    apply minimax_loop_guarded; intros g; apply IH.
Qed.

(** Every call of [minimax] reads the clock at least once; it completes
    only if every reading passed, and raises only [Timeout]. *)
Lemma minimax_guarded (game : Board) (depth : Z) (mp : bool)
    (k : nat) (r : res result) (k' : nat) :
  minimax self game depth mp k = (r, k') ->
  (k < k')%nat /\
  match r with
  | Ok _ => readings_pass self k k'
  | Raise e => e = Timeout
  end.
Proof.
  intros E. split; [|exact (proj2 (minimax_n_guarded _ _ _ _ _ _ E))].
  unfold minimax in E.
  assert (Hg : forall c : unit -> M result,
             (forall u, guarded self (c u)) ->
             bind (time_guard self) c k = (r, k') -> (k < k')%nat).
  { intros c Hc Eb. rewrite guard_bind in Eb.
    destruct (time_left self k <? TIMER_THRESHOLD self).
    - inversion Eb; lia.
    - destruct (Hc tt _ _ _ Eb); lia. }
  destruct (Z.to_nat depth) as [|n]; simpl in E;
    (eapply Hg; [|exact E]); intros [];
    destruct mp; destruct (get_legal_moves game);
    try apply guarded_ret;
    apply minimax_loop_guarded; intros g; apply minimax_n_guarded.
Qed.

(** The iterative loop ends as soon as the clock has a reading below the
    threshold: with that reading at call [j], [j - k + 1] iterations
    suffice, and the loop is left by [Timeout]. *)
Lemma iterative_loop_terminates (game : Board) (j : nat) :
  time_left self j < TIMER_THRESHOLD self ->
  forall fuel iterator best_move k,
    (k <= j < k + fuel)%nat ->
    exists best k',
      iterative_loop fuel self game iterator best_move k =
      Some (Timeout, best, k').
Proof.
  intros Hj fuel.
  induction fuel as [|fuel IH]; intros iterator best_move k Hk; [lia|].
  simpl.
  destruct (minimax self game iterator true k) as [[r|e] k1] eqn:E;
    destruct (minimax_guarded _ _ _ _ _ _ E) as [Hlt Hr].
  - apply IH. split; [|lia].
    destruct (Nat.lt_ge_cases j k1) as [Hlt'|]; [|assumption].
    specialize (Hr j (conj (proj1 Hk) Hlt')). lia.
  - subst e. eauto.
Qed.

(** If the guard fires at the very first call, the loop keeps the
    [best_move] it was entered with. *)
Lemma iterative_loop_first_cancelled (game : Board) (fuel : nat)
    (iterator : Z) (best_move : result) (k : nat) :
  time_left self k < TIMER_THRESHOLD self ->
  iterative_loop (S fuel) self game iterator best_move k =
  Some (Timeout, best_move, S k).
Proof.
  intros Ht. simpl. rewrite minimax_entry_guard by assumption. reflexivity.
Qed.

End Cancellation.

Section MoveSelector.

Context {Board Player : Type} {provider : Provider Board Player}.

Lemma set_time_left_fields (self : @CustomPlayer Board Player) (f : nat -> Z) :
  time_left (set_time_left self f) = f /\
  TIMER_THRESHOLD (set_time_left self f) = TIMER_THRESHOLD self /\
  iterative (set_time_left self f) = iterative self.
Proof. repeat split. Qed.

(** In iterative mode [get_move] returns a move as soon as the clock
    passes below the threshold. *)
Lemma get_move_iterative_returns (self : @CustomPlayer Board Player)
    (game : Board) (legal_moves : list Move) (clock : nat -> Z) (k j : nat) :
  iterative self = true ->
  (k <= j)%nat ->
  clock j < TIMER_THRESHOLD self ->
  exists m k',
    get_move (S (j - k)) self game legal_moves clock k = Some (Ok m, k').
Proof.
  intros Hi Hk Hj. unfold get_move.
  change (iterative (set_time_left self clock)) with (iterative self).
  rewrite Hi.
  destruct (iterative_loop_terminates (set_time_left self clock) game j Hj
              (S (j - k)) 1 (NegInf, NO_MOVE) k) as (best & k' & E); [lia|].
  rewrite E. eauto.
Qed.

(** When not even the depth-1 iteration completes, the initial sentinel
    is kept and [get_move] returns [(-1, -1)]. *)
Lemma get_move_nothing_completed (self : @CustomPlayer Board Player)
    (game : Board) (legal_moves : list Move) (clock : nat -> Z)
    (k fuel : nat) :
  iterative self = true ->
  clock k < TIMER_THRESHOLD self ->
  get_move (S fuel) self game legal_moves clock k = Some (Ok NO_MOVE, S k).
Proof.
  intros Hi Ht. unfold get_move.
  change (iterative (set_time_left self clock)) with (iterative self).
  rewrite Hi.
  rewrite (iterative_loop_first_cancelled (set_time_left self clock))
    by exact Ht.
  reflexivity.
Qed.

Lemma minimax_loop_ext (rec rec' : Board -> M result)
    (optimizer : result -> result -> result) (game : Board) :
  (forall g k, rec g k = rec' g k) ->
  forall legal_moves best_score k,
    minimax_loop rec optimizer game legal_moves best_score k =
    minimax_loop rec' optimizer game legal_moves best_score k.
Proof.
  intros Hrec legal_moves.
  induction legal_moves as [|lm rest IH]; intros best_score k; simpl;
    [reflexivity|].
  unfold bind. rewrite Hrec.
  destruct (rec' (forecast_move game lm) k) as [[r|e] k1]; [|reflexivity].
  apply IH.
Qed.

(** [minimax] never reads [self.method]. *)
Lemma minimax_method_irrelevant (self : @CustomPlayer Board Player)
    (m : string) (game : Board) (depth : Z) (mp : bool) (k : nat) :
  minimax (with_method self m) game depth mp k =
  minimax self game depth mp k.
Proof.
  unfold minimax. revert game k.
  induction (Z.to_nat depth) as [|n IH]; intros game k; simpl;
    rewrite !guard_bind; simpl;
    destruct (time_left self k <? TIMER_THRESHOLD self); try reflexivity;
    destruct mp; destruct (get_legal_moves game); try reflexivity;
    apply minimax_loop_ext; intros g k'; apply IH.
Qed.

(** [get_move] never reads [self.method] either: the search it runs is
    [minimax] whatever the configured method. *)
Lemma get_move_method_irrelevant (self : @CustomPlayer Board Player)
    (m : string) (fuel : nat) (game : Board) (legal_moves : list Move)
    (clock : nat -> Z) (k : nat) :
  get_move fuel (with_method self m) game legal_moves clock k =
  get_move fuel self game legal_moves clock k.
Proof.
  unfold get_move.
  change (iterative (set_time_left (with_method self m) clock))
    with (iterative (set_time_left self clock)).
  change (search_depth (set_time_left (with_method self m) clock))
    with (search_depth (set_time_left self clock)).
  change (set_time_left (with_method self m) clock)
    with (with_method (set_time_left self clock) m).
  generalize (set_time_left self clock) as p. intros p.
  destruct (iterative p).
  - assert (E : forall iterator best_move k0,
               iterative_loop fuel (with_method p m) game iterator best_move k0 =
               iterative_loop fuel p game iterator best_move k0).
    { induction fuel as [|fuel IH]; intros iterator best_move k0; simpl;
        [reflexivity|].
      rewrite minimax_method_irrelevant.
      destruct (minimax p game iterator true k0) as [[r|e] k1];
        [apply IH | reflexivity]. }
    rewrite E. reflexivity.
  - destruct (get_legal_moves game); [reflexivity|].
    rewrite minimax_method_irrelevant. reflexivity.
Qed.

End MoveSelector.

(** ** Alpha-beta computes the minimax value *)

(** *** The order on scores *)

(** The boolean tests of the code against the order. *)
Lemma float_ltb_true a b : Float.ltb a b = true -> Order.lt a b.
Proof. destruct a, b; cbn; try discriminate; try tauto. apply Z.ltb_lt. Qed.

Lemma float_ltb_false a b : Float.ltb a b = false -> Order.le b a.
Proof. destruct a, b; cbn; try discriminate; try tauto. apply Z.ltb_ge. Qed.

Lemma float_leb_true a b : Float.leb a b = true -> Order.le a b.
Proof. unfold Float.leb. rewrite negb_true_iff. apply float_ltb_false. Qed.

Lemma float_leb_false a b : Float.leb a b = false -> Order.lt b a.
Proof. unfold Float.leb. rewrite negb_false_iff. apply float_ltb_true. Qed.

Lemma float_eqb_true a b : Float.eqb a b = true -> Order.same a b.
Proof. destruct a, b; cbn; try discriminate; try tauto. apply Z.eqb_eq. Qed.

Lemma float_eqb_false a b : Float.eqb a b = false -> ~ Order.same a b.
Proof. destruct a, b; cbn; try discriminate; try tauto. apply Z.eqb_neq. Qed.

Lemma same_eq a b : Order.same a b -> a = b.
Proof. destruct a, b; cbn; try tauto. intros ->. reflexivity. Qed.

(** Python's [max] and [min] on floats are the maximum and the minimum of
    the order. *)
Lemma max_fmax a b : Float.max a b = Order.fmax a b.
Proof.
  destruct a, b; try reflexivity. unfold Float.max. cbn.
  destruct (Z.ltb_spec z z0); f_equal; lia.
Qed.

Lemma min_fmin a b : Float.min a b = Order.fmin a b.
Proof.
  destruct a, b; try reflexivity. unfold Float.min. cbn.
  destruct (Z.ltb_spec z0 z); f_equal; lia.
Qed.

(** Facts about the order are settled by cases on the floats involved,
    down to linear arithmetic on the finite values. *)
Ltac float_bools :=
  repeat match goal with
         | H : Float.ltb _ _ = true |- _ => apply float_ltb_true in H
         | H : Float.ltb _ _ = false |- _ => apply float_ltb_false in H
         | H : Float.leb _ _ = true |- _ => apply float_leb_true in H
         | H : Float.leb _ _ = false |- _ => apply float_leb_false in H
         | H : Float.eqb _ _ = true |- _ => apply float_eqb_true in H
         | H : Float.eqb _ _ = false |- _ => apply float_eqb_false in H
         end.

Ltac float_pick :=
  first
    [ match goal with H : Order.lt ?x _ |- _ => is_var x; destruct x end
    | match goal with H : Order.lt _ ?x |- _ => is_var x; destruct x end
    | match goal with H : Order.le ?x _ |- _ => is_var x; destruct x end
    | match goal with H : Order.le _ ?x |- _ => is_var x; destruct x end
    | match goal with H : Order.same ?x _ |- _ => is_var x; destruct x end
    | match goal with H : Order.same _ ?x |- _ => is_var x; destruct x end
    | match goal with x : pyfloat |- _ => destruct x end ].

Ltac float_step :=
  float_pick;
  cbn [Order.fmax Order.fmin Order.lt Order.le Order.same] in *;
  try contradiction.

Ltac float_order :=
  float_bools;
  unfold Order.within in *;
  rewrite ?max_fmax, ?min_fmin in *;
  cbn [Order.fmax Order.fmin Order.lt Order.le Order.same] in *;
  repeat float_step;
  try lia.

(** A windowed answer about a finite value is finite. *)
Lemma within_finite z a b r :
  Order.lt a b -> Order.within (Fin z) a b r -> exists z', r = Fin z'.
Proof.
  intros Hab Hw. destruct r as [|z'|]; [exfalso|eauto|exfalso]; float_order.
Qed.

Section Loop.
Context {Board Player : Type} {provider : Provider Board Player}.
Variables (rec : Board -> pyfloat -> pyfloat -> M result) (game : Board)
          (cv : Move -> Z).

(** The loop of [alphabeta_max], entered with [best_score = best],
    [best_move = bm] and the current lower bound [a] (with [best <= a <
    beta]), over moves whose successors are answered by [rec].  With [W] the
    maximum of [best] and of the values of the remaining successors: the
    loop returns a score that is [W] when [a < W < beta], and then the first
    remaining move of value [W]; a score between [W] and [a] when [W <= a];
    a score between [beta] and [W] when [beta <= W]. *)
Lemma max_loop_sound (beta : pyfloat) :
  forall rest best bm a k,
    answers rec game cv rest -> Order.lt a beta -> Order.le best a ->
    (bm = None -> best = NegInf /\ rest <> []) ->
    exists r m,
      alphabeta_max_loop rec game beta rest best bm a k = (Ok (r, m), k) /\
      Order.within (Float.max best (highest cv rest)) a beta r /\
      (Order.lt a (Float.max best (highest cv rest)) ->
       Order.lt (Float.max best (highest cv rest)) beta ->
       first_with cv (Float.max best (highest cv rest)) rest = Some m) /\
      (Order.same best a -> Order.le (Float.max best (highest cv rest)) a ->
       Order.same r best /\ bm = Some m).
Proof.
  induction rest as [|m0 rest IH]; intros best bm a k Hans Hab Hba Hbm.
  - destruct bm as [m|]; [|destruct (Hbm eq_refl) as [_ []]; reflexivity].
    exists best, m. cbn [alphabeta_max_loop return_best ret highest fold_right].
    split; [reflexivity|]. clear Hans Hbm.
    split; [float_order|]. split; [intros; exfalso; float_order|].
    intros. split; [float_order|reflexivity].
  - destruct (Hans m0 (or_introl eq_refl) a beta k Hab) as (zs & mv & Es & Hs).
    assert (Hans' : answers rec game cv rest) by (intros m Hm; apply Hans; right; exact Hm).
    cbn [alphabeta_max_loop]. unfold bind at 1. rewrite Es. cbn [fst].
    cbn [highest fold_right]. fold (highest cv rest).
    set (R := highest cv rest) in *.
    destruct (Float.ltb best (Fin zs)) eqn:Hlt.
    + destruct (Float.leb beta (Fin zs)) eqn:Hcut.
      * exists (Fin zs), m0. cbn [return_best ret].
        split; [reflexivity|]. clearbody R. clear IH Hans Hans' Es Hbm.
        split; [float_order|].
        split; intros; exfalso; float_order.
      * destruct (IH (Fin zs) (Some m0) (Float.max a (Fin zs)) k Hans')
          as (r & m & E & Hw & Hfirst & Hkeep).
        { clear -Hab Hcut. float_order. }
        { clear -Hlt Hba. float_order. }
        { discriminate. }
        exists r, m. split; [exact E|].
        fold R in Hw, Hfirst, Hkeep. clearbody R. clear IH Hans Hans' Es E Hbm.
        split; [clear Hfirst Hkeep; float_order|].
        split.
        -- intros H1 H2. cbn [first_with find]. fold (first_with cv (Float.max best (Float.max (Fin (cv m0)) R)) rest).
           destruct (Float.eqb (Fin (cv m0)) (Float.max best (Float.max (Fin (cv m0)) R))) eqn:Heq.
           ++ destruct Hkeep as [_ Hk]; [ | |exact Hk];
                clear Hfirst; float_order.
           ++ assert (EW : Float.max (Fin zs) R = Float.max best (Float.max (Fin (cv m0)) R))
               by (apply same_eq; clear Hfirst Hkeep; float_order).
              rewrite EW in Hfirst. apply Hfirst; clear Hfirst Hkeep; float_order.
        -- intros. exfalso. clear Hfirst Hkeep. float_order.
    + destruct (Float.leb beta best) eqn:Hcut.
      * exfalso. clear -Hab Hba Hcut. float_order.
      * destruct (IH best bm (Float.max a best) k Hans')
          as (r & m & E & Hw & Hfirst & Hkeep).
        { clear -Hab Hcut. float_order. }
        { clear -Hba. float_order. }
        { intros ->. destruct (Hbm eq_refl) as [-> _]. discriminate Hlt. }
        exists r, m. split; [exact E|].
        fold R in Hw, Hfirst, Hkeep. clearbody R. clear IH Hans Hans' Es E Hbm.
        split; [clear Hfirst Hkeep; float_order|].
        split.
        -- intros H1 H2. cbn [first_with find]. fold (first_with cv (Float.max best (Float.max (Fin (cv m0)) R)) rest).
           destruct (Float.eqb (Fin (cv m0)) (Float.max best (Float.max (Fin (cv m0)) R))) eqn:Heq.
           ++ exfalso. clear Hfirst Hkeep. float_order.
           ++ assert (EW : Float.max best R = Float.max best (Float.max (Fin (cv m0)) R))
               by (apply same_eq; clear Hfirst Hkeep; float_order).
              rewrite EW in Hfirst. apply Hfirst; clear Hfirst Hkeep; float_order.
        -- intros H1 H2. apply Hkeep; clear Hfirst Hkeep; float_order.
Qed.


(** The loop of [alphabeta_min], symmetrically. *)
Lemma min_loop_sound (alpha : pyfloat) :
  forall rest best bm b k,
    answers rec game cv rest -> Order.lt alpha b -> Order.le b best ->
    (bm = None -> best = PosInf /\ rest <> []) ->
    exists r m,
      alphabeta_min_loop rec game alpha rest best bm b k = (Ok (r, m), k) /\
      Order.within (Float.min best (lowest cv rest)) alpha b r /\
      (Order.lt alpha (Float.min best (lowest cv rest)) ->
       Order.lt (Float.min best (lowest cv rest)) b ->
       first_with cv (Float.min best (lowest cv rest)) rest = Some m) /\
      (Order.same best b -> Order.le b (Float.min best (lowest cv rest)) ->
       Order.same r best /\ bm = Some m).
Proof.
  induction rest as [|m0 rest IH]; intros best bm b k Hans Hab Hba Hbm.
  - destruct bm as [m|]; [|destruct (Hbm eq_refl) as [_ []]; reflexivity].
    exists best, m. cbn [alphabeta_min_loop return_best ret lowest fold_right].
    split; [reflexivity|]. clear Hans Hbm.
    split; [float_order|]. split; [intros; exfalso; float_order|].
    intros. split; [float_order|reflexivity].
  - destruct (Hans m0 (or_introl eq_refl) alpha b k Hab) as (zs & mv & Es & Hs).
    assert (Hans' : answers rec game cv rest) by (intros m Hm; apply Hans; right; exact Hm).
    cbn [alphabeta_min_loop]. unfold bind at 1. rewrite Es. cbn [fst].
    cbn [lowest fold_right]. fold (lowest cv rest).
    set (R := lowest cv rest) in *.
    destruct (Float.ltb (Fin zs) best) eqn:Hlt.
    + destruct (Float.leb (Fin zs) alpha) eqn:Hcut.
      * exists (Fin zs), m0. cbn [return_best ret].
        split; [reflexivity|]. clearbody R. clear IH Hans Hans' Es Hbm.
        split; [float_order|].
        split; intros; exfalso; float_order.
      * destruct (IH (Fin zs) (Some m0) (Float.min b (Fin zs)) k Hans')
          as (r & m & E & Hw & Hfirst & Hkeep).
        { clear -Hab Hcut. float_order. }
        { clear -Hlt Hba. float_order. }
        { discriminate. }
        exists r, m. split; [exact E|].
        fold R in Hw, Hfirst, Hkeep. clearbody R. clear IH Hans Hans' Es E Hbm.
        split; [clear Hfirst Hkeep; float_order|].
        split.
        -- intros H1 H2. cbn [first_with find].
           fold (first_with cv (Float.min best (Float.min (Fin (cv m0)) R)) rest).
           destruct (Float.eqb (Fin (cv m0))
                       (Float.min best (Float.min (Fin (cv m0)) R))) eqn:Heq.
           ++ destruct Hkeep as [_ Hk]; [ | |exact Hk];
                clear Hfirst; float_order.
           ++ assert (EW : Float.min (Fin zs) R
                           = Float.min best (Float.min (Fin (cv m0)) R))
               by (apply same_eq; clear Hfirst Hkeep; float_order).
              rewrite EW in Hfirst. apply Hfirst; clear Hfirst Hkeep; float_order.
        -- intros. exfalso. clear Hfirst Hkeep. float_order.
    + destruct (Float.leb best alpha) eqn:Hcut.
      * exfalso. clear -Hab Hba Hcut. float_order.
      * destruct (IH best bm (Float.min b best) k Hans')
          as (r & m & E & Hw & Hfirst & Hkeep).
        { clear -Hab Hcut. float_order. }
        { clear -Hba. float_order. }
        { intros ->. destruct (Hbm eq_refl) as [-> _]. discriminate Hlt. }
        exists r, m. split; [exact E|].
        fold R in Hw, Hfirst, Hkeep. clearbody R. clear IH Hans Hans' Es E Hbm.
        split; [clear Hfirst Hkeep; float_order|].
        split.
        -- intros H1 H2. cbn [first_with find].
           fold (first_with cv (Float.min best (Float.min (Fin (cv m0)) R)) rest).
           destruct (Float.eqb (Fin (cv m0))
                       (Float.min best (Float.min (Fin (cv m0)) R))) eqn:Heq.
           ++ exfalso. clear Hfirst Hkeep. float_order.
           ++ assert (EW : Float.min best R
                           = Float.min best (Float.min (Fin (cv m0)) R))
               by (apply same_eq; clear Hfirst Hkeep; float_order).
              rewrite EW in Hfirst. apply Hfirst; clear Hfirst Hkeep; float_order.
        -- intros H1 H2. apply Hkeep; clear Hfirst Hkeep; float_order.
Qed.

End Loop.

Section Nodes.
Context {Board Player : Type} {provider : Provider Board Player}.
Variable self : @CustomPlayer Board Player.

(** On a non-empty list the extremum of finite values is finite. *)
Lemma highest_finite (cv : Move -> Z) (rest : list Move) :
  rest <> [] -> exists z, highest cv rest = Fin z.
Proof.
  induction rest as [|m [|m' rest] IH]; intros Hne; [contradiction| |].
  - exists (cv m). reflexivity.
  - destruct IH as [z Hz]; [discriminate|].
    cbn [highest fold_right] in *. fold (highest cv rest) in *.
    rewrite Hz. rewrite max_fmax. eexists. reflexivity.
Qed.

Lemma lowest_finite (cv : Move -> Z) (rest : list Move) :
  rest <> [] -> exists z, lowest cv rest = Fin z.
Proof.
  induction rest as [|m [|m' rest] IH]; intros Hne; [contradiction| |].
  - exists (cv m). reflexivity.
  - destruct IH as [z Hz]; [discriminate|].
    cbn [lowest fold_right] in *. fold (lowest cv rest) in *.
    rewrite Hz. rewrite min_fmin. eexists. reflexivity.
Qed.

(** The value of an inner state is the extremum of its successors' values. *)
Lemma value_as_highest (n' : nat) (state : Board) (moves : list Move) :
  (forall m, In m moves ->
     exists z, minimax_value self n' (forecast_move state m) false = Fin z) ->
  fold_right
    (fun m acc =>
       Float.max (minimax_value self n' (forecast_move state m) false) acc)
    NegInf moves
  = highest (child_value self n' state true) moves.
Proof.
  induction moves as [|m moves IH]; intros Hf; [reflexivity|].
  cbn [fold_right highest]. fold (highest (child_value self n' state true) moves).
  rewrite IH by (intros m' Hm'; apply Hf; right; exact Hm').
  destruct (Hf m (or_introl eq_refl)) as [z Hz].
  unfold child_value. cbn [negb]. rewrite Hz. reflexivity.
Qed.

Lemma value_as_lowest (n' : nat) (state : Board) (moves : list Move) :
  (forall m, In m moves ->
     exists z, minimax_value self n' (forecast_move state m) true = Fin z) ->
  fold_right
    (fun m acc =>
       Float.min (minimax_value self n' (forecast_move state m) true) acc)
    PosInf moves
  = lowest (child_value self n' state false) moves.
Proof.
  induction moves as [|m moves IH]; intros Hf; [reflexivity|].
  cbn [fold_right lowest]. fold (lowest (child_value self n' state false) moves).
  rewrite IH by (intros m' Hm'; apply Hf; right; exact Hm').
  destruct (Hf m (or_introl eq_refl)) as [z Hz].
  unfold child_value. cbn [negb]. rewrite Hz. reflexivity.
Qed.

(** On a regular state the minimax value is finite. *)
Lemma regular_value_finite (n : nat) :
  forall state maximizing,
    regular self n state ->
    exists z, minimax_value self n state maximizing = Fin z.
Proof.
  induction n as [|n IH]; intros state maximizing [Hne Hr].
  - exact Hr.
  - cbn [minimax_value]. destruct maximizing.
    + rewrite value_as_highest by (intros m Hm; apply IH, Hr, Hm).
      apply highest_finite, Hne.
    + rewrite value_as_lowest by (intros m Hm; apply IH, Hr, Hm).
      apply lowest_finite, Hne.
Qed.

(** The first move of a given value, in the two vocabularies. *)
Lemma first_with_optimal (n' : nat) (state : Board) (maximizing : bool)
    (v : pyfloat) (moves : list Move) :
  (forall m, In m moves ->
     exists z, minimax_value self n' (forecast_move state m) (negb maximizing)
               = Fin z) ->
  first_with (child_value self n' state maximizing) v moves
  = find (fun m =>
            Float.eqb (minimax_value self n' (forecast_move state m)
                         (negb maximizing)) v) moves.
Proof.
  induction moves as [|m moves IH]; intros Hf; [reflexivity|].
  cbn [first_with find].
  fold (first_with (child_value self n' state maximizing) v moves).
  rewrite IH by (intros m' Hm'; apply Hf; right; exact Hm').
  destruct (Hf m (or_introl eq_refl)) as [z Hz].
  unfold child_value. rewrite Hz. reflexivity.
Qed.

(** Alpha-beta on a regular tree, for any window alpha < beta: the score
    returned is the minimax value when that lies inside the window, and a
    bound on the right side of the window otherwise; with the value inside
    the window the move returned is the first optimal one. *)
Lemma alphabeta_nodes_sound (n : nat) :
  forall state alpha beta k,
    regular self n state -> Order.lt alpha beta ->
    (exists z mv,
       alphabeta_max_n self n state alpha beta k = (Ok (Fin z, mv), k) /\
       Order.within (minimax_value self n state true) alpha beta (Fin z) /\
       forall n', n = S n' ->
         Order.lt alpha (minimax_value self n state true) ->
         Order.lt (minimax_value self n state true) beta ->
         first_optimal self n' state true (minimax_value self n state true)
         = Some mv) /\
    (exists z mv,
       alphabeta_min_n self n state alpha beta k = (Ok (Fin z, mv), k) /\
       Order.within (minimax_value self n state false) alpha beta (Fin z) /\
       forall n', n = S n' ->
         Order.lt alpha (minimax_value self n state false) ->
         Order.lt (minimax_value self n state false) beta ->
         first_optimal self n' state false (minimax_value self n state false)
         = Some mv).
Proof.
  induction n as [|n IH]; intros state alpha beta k Hreg Hab.
  - destruct Hreg as [_ [z Hz]].
    split; exists z, (get_player_location state (me self));
      (split; [cbn; unfold leaf, ret; rewrite Hz; reflexivity|]);
      (split; [cbn [minimax_value]; rewrite Hz; clear Hz; float_order
              |discriminate]).
  - destruct Hreg as [Hne Hkids].
    assert (Hfin : forall mx m, In m (get_legal_moves state) ->
              exists z, minimax_value self n (forecast_move state m) mx = Fin z)
      by (intros mx m Hm; apply regular_value_finite, Hkids, Hm).
    split.
    + assert (Hans : answers (alphabeta_min_n self n) state
                       (child_value self n state true) (get_legal_moves state)).
      { intros m Hm a b k' Hlt.
        destruct (proj2 (IH (forecast_move state m) a b k' (Hkids m Hm) Hlt))
          as (z & mv & E & Hw & _).
        exists z, mv. split; [exact E|].
        unfold child_value. cbn [negb].
        destruct (Hfin false m Hm) as [zc Hzc]. rewrite Hzc in *. exact Hw. }
      destruct (max_loop_sound (alphabeta_min_n self n) state
                  (child_value self n state true) beta (get_legal_moves state)
                  NegInf None alpha k Hans Hab)
        as (r & mv & E & Hw & Hfirst & _).
      { exact I. }
      { intros _. split; [reflexivity|exact Hne]. }
      rewrite max_fmax in Hw, Hfirst. cbn [Order.fmax] in Hw, Hfirst.
      destruct (highest_finite (child_value self n state true) _ Hne) as [zt Hzt].
      assert (EV : minimax_value self (S n) state true = Fin zt).
      { cbn [minimax_value]. rewrite value_as_highest by (apply Hfin). exact Hzt. }
      rewrite Hzt in Hw. 
      destruct (within_finite _ _ _ _ Hab Hw) as [z ->].
      exists z, mv. split; [exact E|]. rewrite EV. split; [exact Hw|].
      intros n' En' H1 H2. injection En' as <-.
      unfold first_optimal. cbn [negb].
      rewrite <- (first_with_optimal n state true) by (apply Hfin).
      rewrite <- Hzt. apply Hfirst; rewrite Hzt; assumption.
    + assert (Hans : answers (alphabeta_max_n self n) state
                       (child_value self n state false) (get_legal_moves state)).
      { intros m Hm a b k' Hlt.
        destruct (proj1 (IH (forecast_move state m) a b k' (Hkids m Hm) Hlt))
          as (z & mv & E & Hw & _).
        exists z, mv. split; [exact E|].
        unfold child_value. cbn [negb].
        destruct (Hfin true m Hm) as [zc Hzc]. rewrite Hzc in *. exact Hw. }
      destruct (min_loop_sound (alphabeta_max_n self n) state
                  (child_value self n state false) alpha (get_legal_moves state)
                  PosInf None beta k Hans Hab)
        as (r & mv & E & Hw & Hfirst & _).
      { clear. destruct beta; exact I. }
      { intros _. split; [reflexivity|exact Hne]. }
      rewrite min_fmin in Hw, Hfirst. cbn [Order.fmin] in Hw, Hfirst.
      destruct (lowest_finite (child_value self n state false) _ Hne) as [zt Hzt].
      assert (EV : minimax_value self (S n) state false = Fin zt).
      { cbn [minimax_value]. rewrite value_as_lowest by (apply Hfin). exact Hzt. }
      rewrite Hzt in Hw.
      destruct (within_finite _ _ _ _ Hab Hw) as [z ->].
      exists z, mv. split; [exact E|]. rewrite EV. split; [exact Hw|].
      intros n' En' H1 H2. injection En' as <-.
      unfold first_optimal. cbn [negb].
      rewrite <- (first_with_optimal n state false) by (apply Hfin).
      rewrite <- Hzt. apply Hfirst; rewrite Hzt; assumption.
Qed.

End Nodes.

(** *** The search of the specification computes the same value *)

Section SpecValue.
Context {Board Player : Type} {provider : Provider Board Player}.
Variable self : @CustomPlayer Board Player.
Hypothesis time_never_short : forall j, TIMER_THRESHOLD self <= time_left self j.

(** With a clock that never falls below the threshold the guard is passed. *)
Lemma guard_passes {A} (c : unit -> M A) (k : nat) :
  bind (time_guard self) c k = c tt (S k).
Proof.
  rewrite guard_bind.
  rewrite (proj2 (Z.ltb_ge _ _) (time_never_short k)). reflexivity.
Qed.

Section Combine.
Variables (rec : Board -> M result) (state : Board) (cv : Move -> Z).

(** The combination step of the specification on a maximizing layer,
    entered with a best pair [(bs, bmv)]: it ends with the maximum of [bs]
    and of the successors' values, and with the first move attaining it
    ([bmv] if nothing improves on [bs]). *)
Lemma spec_combine_max :
  forall rest bs bmv k,
    evaluates rec state cv rest ->
    exists m k',
      spec_combine rec true state rest (Some (Fin bs, bmv)) k
      = (Ok (Some (Float.max (Fin bs) (highest cv rest), m)), k') /\
      (Order.lt (Fin bs) (Float.max (Fin bs) (highest cv rest)) ->
       first_with cv (Float.max (Fin bs) (highest cv rest)) rest = Some m) /\
      (Order.same (Float.max (Fin bs) (highest cv rest)) (Fin bs) -> m = bmv).
Proof.
  induction rest as [|m0 rest IH]; intros bs bmv k Hev.
  - exists bmv, k. cbn [spec_combine ret highest fold_right].
    rewrite max_fmax. cbn [Order.fmax].
    split; [reflexivity|]. split; [cbn; lia|reflexivity].
  - destruct (Hev m0 (or_introl eq_refl) k) as (mv & k1 & E).
    assert (Hev' : evaluates rec state cv rest) by (intros m Hm; apply Hev; right; exact Hm).
    cbn [spec_combine]. unfold bind at 1. rewrite E. cbn [fst].
    cbn [highest fold_right]. fold (highest cv rest).
    unfold spec_better.
    destruct (Float.ltb (Fin bs) (Fin (cv m0))) eqn:Hlt.
    + destruct (IH (cv m0) m0 k1 Hev') as (m & k' & E' & Hfirst & Hkeep).
      assert (EW : Float.max (Fin (cv m0)) (highest cv rest)
                   = Float.max (Fin bs) (Float.max (Fin (cv m0)) (highest cv rest))).
      { apply same_eq. clear -Hlt. generalize (highest cv rest) as R. intros R.
        float_order. }
      rewrite <- EW. exists m, k'. split; [exact E'|].
      split.
      * intros _. cbn [first_with find].
        fold (first_with cv (Float.max (Fin (cv m0)) (highest cv rest)) rest).
        destruct (Float.eqb (Fin (cv m0))
                    (Float.max (Fin (cv m0)) (highest cv rest))) eqn:Heq.
        -- f_equal. symmetry. apply Hkeep.
           clear -Heq. generalize dependent (highest cv rest). intros R Heq.
           float_order.
        -- apply Hfirst.
           clear -Heq. generalize dependent (highest cv rest). intros R Heq.
           float_order.
      * intros Hs. exfalso.
        clear -Hs Hlt. generalize dependent (highest cv rest). intros R Hs.
        float_order.
    + destruct (IH bs bmv k1 Hev') as (m & k' & E' & Hfirst & Hkeep).
      assert (EW : Float.max (Fin bs) (highest cv rest)
                   = Float.max (Fin bs) (Float.max (Fin (cv m0)) (highest cv rest))).
      { apply same_eq. clear -Hlt. generalize (highest cv rest) as R. intros R.
        float_order. }
      rewrite <- EW. exists m, k'. split; [exact E'|].
      split; [|exact Hkeep].
      intros Hb. cbn [first_with find].
      fold (first_with cv (Float.max (Fin bs) (highest cv rest)) rest).
      destruct (Float.eqb (Fin (cv m0))
                  (Float.max (Fin bs) (highest cv rest))) eqn:Heq.
      * exfalso. clear -Heq Hlt Hb.
        generalize dependent (highest cv rest). intros R Hb Heq. float_order.
      * apply Hfirst, Hb.
Qed.

(** The same on a minimizing layer. *)
Lemma spec_combine_min :
  forall rest bs bmv k,
    evaluates rec state cv rest ->
    exists m k',
      spec_combine rec false state rest (Some (Fin bs, bmv)) k
      = (Ok (Some (Float.min (Fin bs) (lowest cv rest), m)), k') /\
      (Order.lt (Float.min (Fin bs) (lowest cv rest)) (Fin bs) ->
       first_with cv (Float.min (Fin bs) (lowest cv rest)) rest = Some m) /\
      (Order.same (Float.min (Fin bs) (lowest cv rest)) (Fin bs) -> m = bmv).
Proof.
  induction rest as [|m0 rest IH]; intros bs bmv k Hev.
  - exists bmv, k. cbn [spec_combine ret lowest fold_right].
    rewrite min_fmin. cbn [Order.fmin].
    split; [reflexivity|]. split; [cbn; lia|reflexivity].
  - destruct (Hev m0 (or_introl eq_refl) k) as (mv & k1 & E).
    assert (Hev' : evaluates rec state cv rest) by (intros m Hm; apply Hev; right; exact Hm).
    cbn [spec_combine]. unfold bind at 1. rewrite E. cbn [fst].
    cbn [lowest fold_right]. fold (lowest cv rest).
    unfold spec_better.
    destruct (Float.ltb (Fin (cv m0)) (Fin bs)) eqn:Hlt.
    + destruct (IH (cv m0) m0 k1 Hev') as (m & k' & E' & Hfirst & Hkeep).
      assert (EW : Float.min (Fin (cv m0)) (lowest cv rest)
                   = Float.min (Fin bs) (Float.min (Fin (cv m0)) (lowest cv rest))).
      { apply same_eq. clear -Hlt. generalize (lowest cv rest) as R. intros R.
        float_order. }
      rewrite <- EW. exists m, k'. split; [exact E'|].
      split.
      * intros _. cbn [first_with find].
        fold (first_with cv (Float.min (Fin (cv m0)) (lowest cv rest)) rest).
        destruct (Float.eqb (Fin (cv m0))
                    (Float.min (Fin (cv m0)) (lowest cv rest))) eqn:Heq.
        -- f_equal. symmetry. apply Hkeep.
           clear -Heq. generalize dependent (lowest cv rest). intros R Heq.
           float_order.
        -- apply Hfirst.
           clear -Heq. generalize dependent (lowest cv rest). intros R Heq.
           float_order.
      * intros Hs. exfalso.
        clear -Hs Hlt. generalize dependent (lowest cv rest). intros R Hs.
        float_order.
    + destruct (IH bs bmv k1 Hev') as (m & k' & E' & Hfirst & Hkeep).
      assert (EW : Float.min (Fin bs) (lowest cv rest)
                   = Float.min (Fin bs) (Float.min (Fin (cv m0)) (lowest cv rest))).
      { apply same_eq. clear -Hlt. generalize (lowest cv rest) as R. intros R.
        float_order. }
      rewrite <- EW. exists m, k'. split; [exact E'|].
      split; [|exact Hkeep].
      intros Hb. cbn [first_with find].
      fold (first_with cv (Float.min (Fin bs) (lowest cv rest)) rest).
      destruct (Float.eqb (Fin (cv m0))
                  (Float.min (Fin bs) (lowest cv rest))) eqn:Heq.
      * exfalso. clear -Heq Hlt Hb.
        generalize dependent (lowest cv rest). intros R Hb Heq. float_order.
      * apply Hfirst, Hb.
Qed.

End Combine.
End SpecValue.

Section Agreement.
Context {Board Player : Type} {provider : Provider Board Player}.
Variable self : @CustomPlayer Board Player.
Hypothesis time_never_short : forall j, TIMER_THRESHOLD self <= time_left self j.

(** On a regular state, with the guard never firing, the search of the
    specification returns the minimax value and the first optimal move. *)
Lemma spec_search_value (n : nat) :
  forall state maximizing k,
    regular self n state ->
    exists mv k',
      spec_search_n self n state maximizing k
      = (Ok (minimax_value self n state maximizing, mv), k') /\
      forall n', n = S n' ->
        first_optimal self n' state maximizing
          (minimax_value self n state maximizing) = Some mv.
Proof.
  induction n as [|n IH]; intros state maximizing k [Hne Hreg].
  - cbn [spec_search_n]. rewrite (guard_passes self time_never_short).
    destruct (get_legal_moves state); [contradiction|].
    eexists _, _. split; [reflexivity|discriminate].
  - assert (Hfin : forall mx m, In m (get_legal_moves state) ->
              exists z, minimax_value self n (forecast_move state m) mx = Fin z)
      by (intros mx m Hm; apply regular_value_finite, Hreg, Hm).
    assert (Hev : evaluates
                    (fun s => spec_search_n self n s (negb maximizing)) state
                    (child_value self n state maximizing)
                    (get_legal_moves state)).
    { intros m Hm k0.
      destruct (IH (forecast_move state m) (negb maximizing) k0 (Hreg m Hm))
        as (mv & k' & E & _).
      exists mv, k'. rewrite E. unfold child_value.
      destruct (Hfin (negb maximizing) m Hm) as [z ->]. reflexivity. }
    pose proof (first_with_optimal self n state maximizing) as Hfo.
    unfold first_optimal.
    cbn [spec_search_n minimax_value].
    rewrite (guard_passes self time_never_short).
    destruct maximizing.
    + rewrite value_as_highest by (apply Hfin).
      revert Hne Hfin Hev.
      destruct (get_legal_moves state) as [|m0 rest]; intros Hne Hfin Hev;
        [contradiction|].
      destruct (Hev m0 (or_introl eq_refl) (S k)) as (mv0 & k1 & E0).
      unfold bind at 1. cbn [spec_combine]. unfold bind at 1.
      rewrite E0. cbn [fst].
      destruct (spec_combine_max
                  (fun s => spec_search_n self n s (negb true)) state
                  (child_value self n state true) rest
                  (child_value self n state true m0) m0 k1)
        as (m & k' & E & Hfirst & Hkeep).
      { intros m Hm. apply Hev. right. exact Hm. }
      rewrite E. cbn [highest fold_right]. fold (highest (child_value self n state true) rest).
      exists m, k'. split; [reflexivity|].
      intros n' En'. injection En' as <-.
      rewrite <- Hfo by (apply Hfin). cbn [first_with find].
      fold (first_with (child_value self n state true)
              (Float.max (Fin (child_value self n state true m0))
                 (highest (child_value self n state true) rest)) rest).
      destruct (Float.eqb (Fin (child_value self n state true m0))
                  (Float.max (Fin (child_value self n state true m0))
                     (highest (child_value self n state true) rest))) eqn:Heq.
      * f_equal. symmetry. apply Hkeep.
        clear -Heq. generalize dependent (highest (child_value self n state true) rest).
        intros R Heq. float_order.
      * apply Hfirst.
        clear -Heq. generalize dependent (highest (child_value self n state true) rest).
        intros R Heq. float_order.
    + rewrite value_as_lowest by (apply Hfin).
      revert Hne Hfin Hev.
      destruct (get_legal_moves state) as [|m0 rest]; intros Hne Hfin Hev;
        [contradiction|].
      destruct (Hev m0 (or_introl eq_refl) (S k)) as (mv0 & k1 & E0).
      unfold bind at 1. cbn [spec_combine]. unfold bind at 1.
      rewrite E0. cbn [fst].
      destruct (spec_combine_min
                  (fun s => spec_search_n self n s (negb false)) state
                  (child_value self n state false) rest
                  (child_value self n state false m0) m0 k1)
        as (m & k' & E & Hfirst & Hkeep).
      { intros m Hm. apply Hev. right. exact Hm. }
      rewrite E. cbn [lowest fold_right]. fold (lowest (child_value self n state false) rest).
      exists m, k'. split; [reflexivity|].
      intros n' En'. injection En' as <-.
      rewrite <- Hfo by (apply Hfin). cbn [first_with find].
      fold (first_with (child_value self n state false)
              (Float.min (Fin (child_value self n state false m0))
                 (lowest (child_value self n state false) rest)) rest).
      destruct (Float.eqb (Fin (child_value self n state false m0))
                  (Float.min (Fin (child_value self n state false m0))
                     (lowest (child_value self n state false) rest))) eqn:Heq.
      * f_equal. symmetry. apply Hkeep.
        clear -Heq. generalize dependent (lowest (child_value self n state false) rest).
        intros R Heq. float_order.
      * apply Hfirst.
        clear -Heq. generalize dependent (lowest (child_value self n state false) rest).
        intros R Heq. float_order.
Qed.

(** Alpha-beta is the search of the specification.  On a state that is
    regular [depth] plies deep, with a clock that never falls below the
    threshold, [alphabeta] called with alpha = -inf and beta = +inf returns
    the pair the search of section 4.2 returns: the minimax value with
    alternating layers, and the first legal move, in enumeration order,
    whose successor has that value.  [alphabeta] reads the clock once. *)
Theorem alphabeta_agrees_with_spec_search (state : Board) (depth : Z)
    (maximizing : bool) (k : nat) :
  0 < depth ->
  regular self (Z.to_nat depth) state ->
  exists v m k',
    spec_search self state depth maximizing k = (Ok (v, m), k') /\
    alphabeta self state depth NegInf PosInf maximizing k = (Ok (v, m), S k) /\
    v = minimax_value self (Z.to_nat depth) state maximizing /\
    first_optimal self (Nat.pred (Z.to_nat depth)) state maximizing v = Some m.
Proof.
  intros Hd Hreg. unfold spec_search, alphabeta, alphabeta_max, alphabeta_min.
  rewrite (guard_passes self time_never_short).
  destruct (Z.to_nat depth) as [|n] eqn:En; [lia|].
  destruct (spec_search_value (S n) state maximizing k Hreg)
    as (mv & k' & E & Hmv).
  specialize (Hmv n eq_refl).
  destruct (regular_value_finite self (S n) state maximizing Hreg) as [zv Hzv].
  destruct (alphabeta_nodes_sound self (S n) state NegInf PosInf (S k) Hreg I)
    as [(z & mv' & E' & Hw & Hfirst) (z2 & mv2 & E2 & Hw2 & Hfirst2)].
  exists (Fin zv), mv, k'. rewrite <- Hzv. split; [exact E|].
  split; [|split; [reflexivity|exact Hmv]].
  destruct maximizing; cbv beta iota; rewrite ?En.
  - rewrite E'. rewrite Hzv in *.
    specialize (Hfirst n eq_refl I I).
    assert (z = zv) by (destruct Hw as (_ & Hx & _); exact (Hx I I)).
    congruence.
  - rewrite E2. rewrite Hzv in *.
    specialize (Hfirst2 n eq_refl I I).
    assert (z2 = zv) by (destruct Hw2 as (_ & Hx & _); exact (Hx I I)).
    congruence.
Qed.

End Agreement.

(** [Tree.two_ply] is regular two plies deep, and alpha-beta returns there
    what the search of the specification returns. *)
Lemma two_ply_regular (self : @CustomPlayer tree unit) :
  score self = (fun t _ => Tree.val t) ->
  regular self 2 Tree.two_ply.
Proof.
  intros Hs. cbn [regular]. rewrite Hs.
  split; [discriminate|]. intros m [<-|[<-|[]]];
    (split; [discriminate|]); intros m' [<-|[<-|[]]];
    (split; [discriminate|]); eexists; reflexivity.
Qed.

Lemma alphabeta_agrees_with_spec_search_witness :
  let self := Tree.player 2 false "alphabeta" Tree.plenty 0 in
  exists v m k',
    spec_search self Tree.two_ply 2 true 0%nat = (Ok (v, m), k') /\
    alphabeta self Tree.two_ply 2 NegInf PosInf true 0%nat = (Ok (v, m), 1%nat) /\
    v = minimax_value self 2 Tree.two_ply true /\
    first_optimal self 1 Tree.two_ply true v = Some m.
Proof.
  intros self.
  assert (Ht : forall j, TIMER_THRESHOLD self <= time_left self j)
    by (intros j; vm_compute; discriminate).
  assert (Hd : 0 < 2) by lia.
  exact (alphabeta_agrees_with_spec_search self Ht Tree.two_ply 2 true 0%nat
           Hd (two_ply_regular self eq_refl)).
Defined.

(** ** The claims about the search *)

Section LeafRule.

Context {Board Player : Type} {provider : Provider Board Player}.

(** C8: at depth <= 0, [minimax] on a state with at least one legal move,
    [alphabeta], and the two alpha-beta helpers at every such node, return
    the pair made of the evaluation function applied to (state, self) and of
    the location the board reports for self.  The two entry points that
    check the clock do so first and raise [Timeout] instead when the reading
    is below the threshold ([guard_then]). *)
Theorem leaf_rule (self : @CustomPlayer Board Player) (game : Board)
    (depth : Z) (mp : bool) (alpha beta : pyfloat) (k : nat) :
  depth <= 0 ->
  let pair := (score self game (me self), get_player_location game (me self)) in
  (get_legal_moves game <> [] ->
   minimax self game depth mp k = guard_then self k pair) /\
  alphabeta self game depth alpha beta mp k = guard_then self k pair /\
  alphabeta_max self game depth alpha beta k = (Ok pair, k) /\
  alphabeta_min self game depth alpha beta k = (Ok pair, k).
Proof.
  intros Hd pair. repeat split.
  - intros Hm. rewrite minimax_leaf_eq by assumption. rewrite guard_bind.
    unfold guard_then.
    destruct (get_legal_moves game); [contradiction|reflexivity].
  - unfold alphabeta. rewrite guard_bind. unfold guard_then.
    destruct mp;
      [rewrite alphabeta_max_leaf_eq by assumption
      |rewrite alphabeta_min_leaf_eq by assumption]; reflexivity.
  - rewrite alphabeta_max_leaf_eq by assumption. reflexivity.
  - rewrite alphabeta_min_leaf_eq by assumption. reflexivity.
Qed.

End LeafRule.

Lemma leaf_rule_witness :
  let self := Tree.player 3 false "minimax" Tree.plenty 0 in
  let game := Tree.open Tree.A (Fin 5) in
  minimax self game 0 true 0%nat = (Ok (Fin 5, Tree.A), 1%nat) /\
  alphabeta self game 0 NegInf PosInf true 0%nat = (Ok (Fin 5, Tree.A), 1%nat) /\
  alphabeta_max self game 0 NegInf PosInf 0%nat = (Ok (Fin 5, Tree.A), 0%nat) /\
  alphabeta_min self game 0 NegInf PosInf 0%nat = (Ok (Fin 5, Tree.A), 0%nat).
Proof.
  intros self game.
  assert (Hd : 0 <= 0) by lia.
  destruct (leaf_rule self game 0 true NegInf PosInf 0%nat Hd)
    as (H1 & H2 & H3 & H4).
  split; [apply H1; discriminate|].
  split; [exact H2|].
  split; [exact H3|exact H4].
Defined.

(** C1: [minimax] hands [maximizing_player] to the recursive call unchanged.
    On [Tree.two_ply] (replies worth 1 and 9 after [A], 4 and 5 after [B])
    the code maximizes on both plies and answers score 9 with move [A];
    the search of the specification, which negates the flag, answers the
    minimax value 4 with move [B]. *)
Theorem minimax_keeps_maximizing_flag :
  let self := Tree.player 2 false "minimax" Tree.plenty 0 in
  minimax self Tree.two_ply 2 true 0%nat = (Ok (Fin 9, Tree.A), 7%nat) /\
  minimax self (forecast_move Tree.two_ply Tree.A) 1 true 1%nat
    = (Ok (Fin 9, (3, 4)), 4%nat) /\
  spec_search self Tree.two_ply 2 true 0%nat = (Ok (Fin 4, Tree.B), 7%nat) /\
  spec_search self (forecast_move Tree.two_ply Tree.A) 1 false 1%nat
    = (Ok (Fin 1, (3, 3)), 4%nat).
Proof. vm_compute. repeat split. Qed.

(** C2: with the clock far above the threshold at every reading,
    [alphabeta] called with alpha = -inf and beta = +inf returns score 4 on
    [Tree.two_ply] at depth 2 and [minimax] returns score 9 there. *)
Theorem alphabeta_score_differs_from_minimax :
  let self := Tree.player 2 false "alphabeta" Tree.plenty 0 in
  (forall k, TIMER_THRESHOLD self <= time_left self k) /\
  alphabeta self Tree.two_ply 2 NegInf PosInf true 0%nat
    = (Ok (Fin 4, Tree.B), 1%nat) /\
  minimax self Tree.two_ply 2 true 0%nat = (Ok (Fin 9, Tree.A), 7%nat).
Proof. split; [intros k; vm_compute; discriminate | vm_compute; split; reflexivity]. Qed.

(** C3: only the root call of [alphabeta] checks the clock.  With a clock
    that is above the threshold at its first reading and below it at every
    later one, [alphabeta] at depth 2 runs through all the nested
    [alphabeta_min] and [alphabeta_max] calls, reads the clock once and
    returns a result; [minimax] on the same input raises [Timeout] at its
    first recursive call. *)
Theorem alphabeta_inner_nodes_unguarded :
  let self := Tree.player 2 false "alphabeta" Tree.ticking 950 in
  TIMER_THRESHOLD self <= time_left self 0 /\
  (forall k, time_left self (S k) < TIMER_THRESHOLD self) /\
  alphabeta self Tree.two_ply 2 NegInf PosInf true 0%nat
    = (Ok (Fin 4, Tree.B), 1%nat) /\
  minimax self Tree.two_ply 2 true 0%nat = (Raise Timeout, 2%nat).
Proof.
  repeat split.
  - vm_compute. discriminate.
  - intros k. change (1000 - 100 * Z.of_nat (S k) < 950). lia.
Qed.

(** C4: in iterative mode [get_move] keeps the maximum of the results of
    the completed iterations, not the result of the last one.  On
    [Tree.deepening] the depth-1 iteration completes with (5, A), the
    depth-2 iteration completes with (2, B), the depth-3 iteration is
    cancelled at its first reading, and [get_move] returns [A]. *)
Theorem get_move_keeps_best_scoring_iteration :
  let self := Tree.player 3 true "minimax" Tree.plenty 250 in
  let wired := set_time_left self Tree.ticking in
  minimax wired Tree.deepening 1 true 0%nat = (Ok (Fin 5, Tree.A), 3%nat) /\
  minimax wired Tree.deepening 2 true 3%nat = (Ok (Fin 2, Tree.B), 8%nat) /\
  minimax wired Tree.deepening 3 true 8%nat = (Raise Timeout, 9%nat) /\
  forall fuel,
    get_move (3 + fuel) self Tree.deepening [Tree.A; Tree.B] Tree.ticking 0%nat
    = Some (Ok Tree.A, 9%nat).
Proof. repeat split. Qed.

(** C5: on a state without legal moves, [alphabeta] at depth 1 raises
    [UnboundLocalError] for [best_move], as maximizer and as minimizer,
    where [minimax] returns (0, (-1, -1)). *)
Theorem alphabeta_unbound_without_moves :
  let self := Tree.player 1 false "alphabeta" Tree.plenty 0 in
  let game := Tree.dead (1, 1) (Fin 3) in
  get_legal_moves game = [] /\
  alphabeta self game 1 NegInf PosInf true 0%nat
    = (Raise (UnboundLocalError "best_move"), 1%nat) /\
  alphabeta self game 1 NegInf PosInf false 0%nat
    = (Raise (UnboundLocalError "best_move"), 1%nat) /\
  minimax self game 1 true 0%nat = (Ok (Fin 0, NO_MOVE), 1%nat).
Proof. repeat split. Qed.

(** C6: a player configured with method 'alphabeta' still runs [minimax]:
    in fixed-depth mode at depth 2 on [Tree.two_ply], [get_move] returns
    [A] after 7 clock readings, which is the answer of [minimax];
    [alphabeta] answers [B] after one reading. *)
Theorem get_move_runs_minimax_for_alphabeta :
  let self := Tree.player 2 false "alphabeta" Tree.plenty 0 in
  method self = "alphabeta"%string /\
  (forall fuel,
     get_move fuel self Tree.two_ply [Tree.A; Tree.B] Tree.plenty 0%nat
     = Some (Ok Tree.A, 7%nat)) /\
  minimax self Tree.two_ply 2 true 0%nat = (Ok (Fin 9, Tree.A), 7%nat) /\
  alphabeta self Tree.two_ply 2 NegInf PosInf true 0%nat
    = (Ok (Fin 4, Tree.B), 1%nat).
Proof. repeat split. Qed.

(** C7: [minimax] does not keep the first of two equally good moves.  On
    [Tree.tie] the moves are enumerated [A] then [B] and both children
    score 5; [minimax] at depth 1 returns [B], because the tuples
    (5, (0, 1)) and (5, (1, 0)) are compared on their move part.
    [alphabeta] returns [A]. *)
Theorem minimax_tie_keeps_later_move :
  let self := Tree.player 1 false "minimax" Tree.plenty 0 in
  get_legal_moves Tree.tie = [Tree.A; Tree.B] /\
  minimax self (forecast_move Tree.tie Tree.A) 0 true 1%nat
    = (Ok (Fin 5, Tree.A), 2%nat) /\
  minimax self (forecast_move Tree.tie Tree.B) 0 true 2%nat
    = (Ok (Fin 5, Tree.B), 3%nat) /\
  minimax self Tree.tie 1 true 0%nat = (Ok (Fin 5, Tree.B), 3%nat) /\
  alphabeta self Tree.tie 1 NegInf PosInf true 0%nat
    = (Ok (Fin 5, Tree.A), 1%nat).
Proof. repeat split. Qed.

(** ** The claims about the evaluation functions *)

Section HeuristicFacts.

Context {Board Player : Type} {provider : Provider Board Player}
        {queries : BoardQueries Board Player}.

(** The nested loops only ever add to the running score. *)
Lemma weight_four_ge (game : Board) (row col : Z) (table : list Move) :
  forall score, score <= weight_four game row col table score.
Proof.
  unfold weight_four. induction table as [|d table IH]; intros score; simpl.
  - lia.
  - destruct (move_is_legal game (offset row col d));
      etransitivity; [|apply IH| |apply IH]; lia.
Qed.

Lemma weight_three_ge (game : Board) (row col : Z)
    (table : list (Move * list Move)) :
  forall score, score <= weight_three game row col table score.
Proof.
  unfold weight_three.
  induction table as [|[d below] table IH]; intros score; simpl.
  - lia.
  - destruct (move_is_legal game (offset row col d)).
    + etransitivity; [|apply IH].
      pose proof (weight_four_ge game row col below (score + 8)). lia.
    + apply IH.
Qed.

Lemma weight_two_ge (game : Board) (row col : Z)
    (table : list (Move * list (Move * list Move))) :
  forall score, score <= weight_two game row col table score.
Proof.
  unfold weight_two.
  induction table as [|[d below] table IH]; intros score; simpl.
  - lia.
  - destruct (move_is_legal game (offset row col d)).
    + etransitivity; [|apply IH].
      pose proof (weight_three_ge game row col below (score + 4)). lia.
    + apply IH.
Qed.

Lemma weight_one_ge (game : Board) (row col : Z)
    (table : list (Move * list (Move * list (Move * list Move)))) :
  forall score, score <= weight_one game row col table score.
Proof.
  unfold weight_one.
  induction table as [|[d below] table IH]; intros score; simpl.
  - lia.
  - destruct (move_is_legal game (offset row col d)).
    + etransitivity; [|apply IH].
      pose proof (weight_two_ge game row col below (score + 1)). lia.
    + apply IH.
Qed.

(** In a state that is neither lost nor won, [future_moves_weight] is the
    float of a non-negative integer. *)
Lemma future_moves_weight_finite (game : Board) (player : Player) :
  is_loser game player = false ->
  is_winner game player = false ->
  exists z, future_moves_weight game player = Fin z /\ 0 <= z.
Proof.
  intros Hl Hw. unfold future_moves_weight. rewrite Hl, Hw.
  destruct (get_player_location game player) as [row col].
  eexists. split; [reflexivity|]. apply weight_one_ge.
Qed.

(** X22: [weighted_improved_score] and [future_moves_weight] follow the
    contract of an evaluation function: in every state that the player has
    not both won and lost, each returns +inf if the player has won, -inf
    if the player has lost, and a finite value otherwise. *)
Theorem heuristics_follow_contract (game : Board) (player : Player) :
  (is_winner game player = true -> is_loser game player = false) ->
  contract_at weighted_improved_score game player /\
  contract_at future_moves_weight game player.
Proof.
  intros Hx. split.
  - unfold contract_at, weighted_improved_score. repeat split.
    + intros Hw. rewrite (Hx Hw), Hw. reflexivity.
    + intros Hl. rewrite Hl. reflexivity.
    + intros Hw Hl. rewrite Hl, Hw. eexists. reflexivity.
  - unfold contract_at. repeat split.
    + intros Hw. unfold future_moves_weight. rewrite (Hx Hw), Hw. reflexivity.
    + intros Hl. unfold future_moves_weight. rewrite Hl. reflexivity.
    + intros Hw Hl.
      destruct (future_moves_weight_finite game player Hl Hw) as (z & Hz & _).
      exists z. exact Hz.
Qed.

(** The test of [mixed_heuristic] in integers: there are fewer blank
    spaces than half the area when twice their number is below the area. *)
Lemma less_than_half_blank_spec (game : Board) :
  less_than_half_blank game = true <->
  2 * Z.of_nat (List.length (get_blank_spaces game)) < width game * height game.
Proof.
  unfold less_than_half_blank.
  rewrite negb_true_iff, <- not_true_iff_false, Qle_bool_iff.
  unfold Qle, Qdiv, Qmult, Qinv, inject_Z. cbn [Qnum Qden Pos.mul].
  lia.
Qed.

(** C10: in every state (so in every non-terminal one) whose number of
    blank spaces is at least half the board area, width * height / 2,
    [mixed_heuristic] returns no score: it raises [NameError] for the name
    [difference_player_biased]. *)
Theorem mixed_heuristic_name_error (game : Board) (player : Player) :
  (inject_Z (width game * height game) / 2
   <= inject_Z (Z.of_nat (List.length (get_blank_spaces game))))%Q ->
  mixed_heuristic game player = Raise (NameError "difference_player_biased").
Proof.
  intros Hb. unfold mixed_heuristic, less_than_half_blank.
  apply Qle_bool_iff in Hb. rewrite Hb. reflexivity.
Qed.

End HeuristicFacts.

(** C9 (defect of the code): [custom_score] does not follow the contract.
    It never reads [player] and has no test for a won or a lost state, so
    it gives every player the same finite value.  On [Grid.centre_start],
    the position after the first player placed on the centre of a 3 x 3
    board and the second in a corner, the first player has lost and the
    second has won; [custom_score] is 0.0 for both, where the contract asks
    for -inf and +inf, the values [weighted_improved_score] returns. *)
Theorem custom_score_misses_won_and_lost :
  (forall (game : Grid.board) (p q : bool),
     custom_score game p = custom_score game q) /\
  is_loser Grid.centre_start true = true /\
  is_winner Grid.centre_start false = true /\
  custom_score Grid.centre_start true = Fin 0 /\
  custom_score Grid.centre_start false = Fin 0 /\
  weighted_improved_score Grid.centre_start true = NegInf /\
  weighted_improved_score Grid.centre_start false = PosInf /\
  ~ satisfies_contract (custom_score (Board := Grid.board) (Player := bool)).
Proof.
  split; [reflexivity|].
  repeat (split; [reflexivity|]).
  intros H. destruct (H Grid.centre_start true) as (_ & Hl & _).
  specialize (Hl eq_refl). discriminate Hl.
Qed.

Lemma heuristics_follow_contract_witness :
  weighted_improved_score Grid.centre_start true = NegInf /\
  future_moves_weight Grid.centre_start false = PosInf.
Proof.
  assert (Hx : is_winner Grid.centre_start true = true ->
               is_loser Grid.centre_start true = false) by discriminate.
  assert (Hy : is_winner Grid.centre_start false = true ->
               is_loser Grid.centre_start false = false) by reflexivity.
  destruct (heuristics_follow_contract Grid.centre_start true Hx)
    as ((_ & Hl & _) & _).
  destruct (heuristics_follow_contract Grid.centre_start false Hy)
    as (_ & (Hw & _)).
  split; [exact (Hl eq_refl)|exact (Hw eq_refl)].
Defined.

Lemma mixed_heuristic_name_error_witness :
  mixed_heuristic Grid.centre_open true
  = Raise (NameError "difference_player_biased").
Proof.
  apply (mixed_heuristic_name_error Grid.centre_open true).
  vm_compute. discriminate.
Defined.

(** ** Further properties of the code *)

Section GuardFacts.

Context {Board Player : Type} {provider : Provider Board Player}.
Variable self : @CustomPlayer Board Player.

(** X1: on a state without legal moves [minimax] returns the pair
    (0, (-1, -1)) at every depth and for either value of the flag, after a
    single reading of the clock, provided that reading passes the guard.
    The evaluation function is not called. *)
Theorem minimax_without_moves (game : Board) (depth : Z) (mp : bool) (k : nat) :
  get_legal_moves game = [] ->
  TIMER_THRESHOLD self <= time_left self k ->
  minimax self game depth mp k = (Ok (Fin 0, (-1, -1)), S k).
Proof.
  intros Hm Ht. rewrite minimax_no_moves by assumption.
  unfold guard_then. rewrite (proj2 (Z.ltb_ge _ _) Ht). reflexivity.
Qed.

(** The alpha-beta helpers raise nothing but [UnboundLocalError]. *)
Lemma alphabeta_helpers_never_time_out (n : nat) :
  forall game alpha beta k,
    fst (alphabeta_max_n self n game alpha beta k) <> Raise Timeout /\
    fst (alphabeta_min_n self n game alpha beta k) <> Raise Timeout.
Proof.
  induction n as [|n IH]; intros game alpha beta k.
  - split; discriminate.
  - split; simpl.
    + generalize (@None Move) as bm, NegInf as bs. revert alpha k.
      induction (get_legal_moves game) as [|lm rest IHl];
        intros alpha k bm bs; simpl.
      * destruct bm; discriminate.
      * unfold bind at 1.
        pose proof (proj2 (IH (forecast_move game lm) alpha beta k)) as Hk.
        destruct (alphabeta_min_n self n (forecast_move game lm) alpha beta k)
          as [[r|e] k1]; [|exact Hk].
        destruct (Float.ltb bs (fst r)); simpl.
        -- destruct (Float.leb beta (fst r)); [discriminate | apply IHl].
        -- destruct (Float.leb beta bs); [destruct bm; discriminate | apply IHl].
    + generalize (@None Move) as bm, PosInf as bs. revert beta k.
      induction (get_legal_moves game) as [|lm rest IHl];
        intros beta k bm bs; simpl.
      * destruct bm; discriminate.
      * unfold bind at 1.
        pose proof (proj1 (IH (forecast_move game lm) alpha beta k)) as Hk.
        destruct (alphabeta_max_n self n (forecast_move game lm) alpha beta k)
          as [[r|e] k1]; [|exact Hk].
        destruct (Float.ltb (fst r) bs); simpl.
        -- destruct (Float.leb (fst r) alpha); [discriminate | apply IHl].
        -- destruct (Float.leb bs alpha); [destruct bm; discriminate | apply IHl].
Qed.

(** X3: whatever the depth, the window and the flag, [alphabeta]
    reads the clock exactly once, and it raises [Timeout] exactly when that
    one reading is below the threshold: no later reading can cancel the
    search. *)
Theorem alphabeta_checks_the_clock_once (game : Board) (depth : Z)
    (alpha beta : pyfloat) (mp : bool) (k : nat) :
  snd (alphabeta self game depth alpha beta mp k) = S k /\
  (fst (alphabeta self game depth alpha beta mp k) = Raise Timeout <->
   time_left self k < TIMER_THRESHOLD self).
Proof.
  split; [apply alphabeta_reads_clock_once|].
  unfold alphabeta. rewrite guard_bind.
  destruct (Z.ltb_spec (time_left self k) (TIMER_THRESHOLD self)) as [Hlt|Hge].
  - split; [intros _; exact Hlt|reflexivity].
  - split; [|lia]. intros E. exfalso.
    destruct mp; unfold alphabeta_max, alphabeta_min in E;
      [exact (proj1 (alphabeta_helpers_never_time_out _ _ _ _ _) E)
      |exact (proj2 (alphabeta_helpers_never_time_out _ _ _ _ _) E)].
Qed.

(** X4: on a state without legal moves, [alphabeta] at any depth
    > 0 raises [UnboundLocalError] for [best_move], for every window and
    either flag, once past the time guard. *)
Theorem alphabeta_without_moves (game : Board) (depth : Z)
    (alpha beta : pyfloat) (mp : bool) (k : nat) :
  get_legal_moves game = [] ->
  0 < depth ->
  TIMER_THRESHOLD self <= time_left self k ->
  alphabeta self game depth alpha beta mp k
  = (Raise (UnboundLocalError "best_move"), S k).
Proof. apply alphabeta_no_moves. Qed.

End GuardFacts.

Section AlphaBetaFacts.

Context {Board Player : Type} {provider : Provider Board Player}.
Variable self : @CustomPlayer Board Player.

Lemma max_loop_nothing_improves (game : Board) (beta : pyfloat) :
  beta <> NegInf ->
  forall rest alpha k,
    (forall m, In m rest ->
       score self (forecast_move game m) (me self) = NegInf) ->
    alphabeta_max_loop (alphabeta_min_n self 0) game beta rest NegInf None
      alpha k
    = (Raise (UnboundLocalError "best_move"), k).
Proof.
  intros Hb rest. induction rest as [|m rest IH]; intros alpha k Hs.
  - reflexivity.
  - cbn [alphabeta_max_loop alphabeta_min_n]. unfold bind, ret, leaf.
    rewrite (Hs m (or_introl eq_refl)). cbn [fst Float.ltb].
    replace (Float.leb beta NegInf) with false
      by (destruct beta; [contradiction| |]; reflexivity).
    apply IH. intros m' Hm'. apply Hs. right. exact Hm'.
Qed.

Lemma min_loop_nothing_improves (game : Board) (alpha : pyfloat) :
  alpha <> PosInf ->
  forall rest beta k,
    (forall m, In m rest ->
       score self (forecast_move game m) (me self) = PosInf) ->
    alphabeta_min_loop (alphabeta_max_n self 0) game alpha rest PosInf None
      beta k
    = (Raise (UnboundLocalError "best_move"), k).
Proof.
  intros Ha rest. induction rest as [|m rest IH]; intros beta k Hs.
  - reflexivity.
  - cbn [alphabeta_min_loop alphabeta_max_n]. unfold bind, ret, leaf.
    rewrite (Hs m (or_introl eq_refl)). cbn [fst Float.ltb].
    replace (Float.leb PosInf alpha) with false
      by (destruct alpha; [| |contradiction]; reflexivity).
    apply IH. intros m' Hm'. apply Hs. right. exact Hm'.
Qed.

(** X5: [alphabeta] at depth 1 raises [UnboundLocalError] for
    [best_move] whenever no successor improves on the initial best score:
    as maximizer when every legal move leads to a state evaluated -inf (and
    beta is not -inf), as minimizer when every legal move leads to a state
    evaluated +inf (and alpha is not +inf). *)
Theorem alphabeta_fails_when_no_move_improves (game : Board)
    (alpha beta : pyfloat) (mp : bool) (k : nat) :
  (forall m, In m (get_legal_moves game) ->
     score self (forecast_move game m) (me self)
     = if mp then NegInf else PosInf) ->
  (if mp then beta <> NegInf else alpha <> PosInf) ->
  TIMER_THRESHOLD self <= time_left self k ->
  alphabeta self game 1 alpha beta mp k
  = (Raise (UnboundLocalError "best_move"), S k).
Proof.
  intros Hs Hw Ht. unfold alphabeta. rewrite guard_bind.
  rewrite (proj2 (Z.ltb_ge _ _) Ht).
  destruct mp.
  - apply max_loop_nothing_improves; assumption.
  - apply min_loop_nothing_improves; assumption.
Qed.

(** X7: pruning is sound for every window.  On a state that is
    regular [depth] plies deep and for alpha < beta, [alphabeta_max] and
    [alphabeta_min] return, without reading the clock, a finite score that
    is the minimax value of the state when that value lies strictly inside
    the window, lies between the value and alpha when the value is at most
    alpha, and between beta and the value when the value is at least beta
    ([Order.within]). *)
Theorem alphabeta_window_sound (state : Board) (depth : Z)
    (alpha beta : pyfloat) (k : nat) :
  regular self (Z.to_nat depth) state ->
  Order.lt alpha beta ->
  (exists z m,
     alphabeta_max self state depth alpha beta k = (Ok (Fin z, m), k) /\
     Order.within (minimax_value self (Z.to_nat depth) state true)
       alpha beta (Fin z)) /\
  (exists z m,
     alphabeta_min self state depth alpha beta k = (Ok (Fin z, m), k) /\
     Order.within (minimax_value self (Z.to_nat depth) state false)
       alpha beta (Fin z)).
Proof.
  intros Hreg Hab. unfold alphabeta_max, alphabeta_min.
  destruct (alphabeta_nodes_sound self _ state alpha beta k Hreg Hab)
    as [(z & m & E & Hw & _) (z' & m' & E' & Hw' & _)].
  split; [exists z, m|exists z', m']; split; assumption.
Qed.

(** The root call of alpha-beta with the full window. *)
Lemma alphabeta_root_value (state : Board) (depth : Z) (mp : bool)
    (k : nat) :
  0 < depth ->
  regular self (Z.to_nat depth) state ->
  TIMER_THRESHOLD self <= time_left self k ->
  exists m,
    alphabeta self state depth NegInf PosInf mp k
    = (Ok (minimax_value self (Z.to_nat depth) state mp, m), S k) /\
    first_optimal self (Nat.pred (Z.to_nat depth)) state mp
      (minimax_value self (Z.to_nat depth) state mp) = Some m.
Proof.
  intros Hd Hreg Ht. unfold alphabeta, alphabeta_max, alphabeta_min.
  rewrite guard_bind. rewrite (proj2 (Z.ltb_ge _ _) Ht).
  destruct (Z.to_nat depth) as [|n] eqn:En; [lia|].
  destruct (regular_value_finite self (S n) state mp Hreg) as [zv Hzv].
  destruct (alphabeta_nodes_sound self (S n) state NegInf PosInf (S k) Hreg I)
    as [(z & m & E & Hw & Hfirst) (z' & m' & E' & Hw' & Hfirst')].
  destruct mp; cbv beta iota; rewrite ?En, Hzv in *.
  - exists m. specialize (Hfirst n eq_refl I I).
    assert (z = zv) by (destruct Hw as (_ & Hx & _); exact (Hx I I)).
    subst z. split; [exact E|exact Hfirst].
  - exists m'. specialize (Hfirst' n eq_refl I I).
    assert (z' = zv) by (destruct Hw' as (_ & Hx & _); exact (Hx I I)).
    subst z'. split; [exact E'|exact Hfirst'].
Qed.

(** X6: on a state that is regular [depth] plies deep, with
    depth > 0 and a first reading of the clock that passes the guard,
    [alphabeta] called with alpha = -inf and beta = +inf returns the minimax
    value of the state together with the first legal move, in enumeration
    order, whose successor has that value. *)
Theorem alphabeta_full_window (state : Board) (depth : Z) (mp : bool)
    (k : nat) :
  0 < depth ->
  regular self (Z.to_nat depth) state ->
  TIMER_THRESHOLD self <= time_left self k ->
  exists m,
    alphabeta self state depth NegInf PosInf mp k
    = (Ok (minimax_value self (Z.to_nat depth) state mp, m), S k) /\
    first_optimal self (Nat.pred (Z.to_nat depth)) state mp
      (minimax_value self (Z.to_nat depth) state mp) = Some m.
Proof. apply alphabeta_root_value. Qed.

End AlphaBetaFacts.

Section MinimaxFacts.

Context {Board Player : Type} {provider : Provider Board Player}.
Variable self : @CustomPlayer Board Player.

Lemma float_eqb_eq (a b : pyfloat) : Float.eqb a b = true -> a = b.
Proof. intros H. apply same_eq, float_eqb_true, H. Qed.

Lemma float_ltb_irrefl (a : pyfloat) : Float.ltb a a = false.
Proof. destruct a; cbn; [reflexivity|apply Z.ltb_irrefl|reflexivity]. Qed.

(** The score part of [max] and [min] on tuples. *)
Lemma tuple_max_score (a b : result) :
  fst (Tuple.max a b) = Float.max (fst a) (fst b).
Proof.
  unfold Tuple.max, Tuple.ltb, Float.max.
  destruct (Float.eqb (fst a) (fst b)) eqn:E.
  - apply float_eqb_eq in E. rewrite E, float_ltb_irrefl.
    destruct (Tuple.move_ltb (snd a) (snd b)); congruence.
  - destruct (Float.ltb (fst a) (fst b)); reflexivity.
Qed.

Lemma tuple_min_score (a b : result) :
  fst (Tuple.min a b) = Float.min (fst a) (fst b).
Proof.
  unfold Tuple.min, Tuple.ltb, Float.min.
  destruct (Float.eqb (fst b) (fst a)) eqn:E.
  - apply float_eqb_eq in E. rewrite E, float_ltb_irrefl.
    destruct (Tuple.move_ltb (snd b) (snd a)); congruence.
  - destruct (Float.ltb (fst b) (fst a)); reflexivity.
Qed.

(** One step of the loop of [minimax] on the score. *)
Lemma minimax_step_score (optimizer : result -> result -> result)
    (fop : pyfloat -> pyfloat -> pyfloat) (best score : result) (lm : Move) :
  (forall a b, fst (optimizer a b) = fop (fst a) (fst b)) ->
  fst (if Tuple.eqb (optimizer best score) score
       then (fst (optimizer best score), lm)
       else optimizer best score)
  = fop (fst best) (fst score).
Proof.
  intros H. destruct (Tuple.eqb (optimizer best score) score); apply H.
Qed.

Lemma minimax_loop_score (rec : Board -> M result) (value : Board -> pyfloat)
    (optimizer : result -> result -> result)
    (fop : pyfloat -> pyfloat -> pyfloat) (game : Board) :
  (forall a b, fst (optimizer a b) = fop (fst a) (fst b)) ->
  (forall g k, exists m k', rec g k = (Ok (value g, m), k')) ->
  forall legal_moves best_score k,
    exists m k',
      minimax_loop rec optimizer game legal_moves best_score k
      = (Ok (fold_left (fun best lm => fop best (value (forecast_move game lm)))
               legal_moves (fst best_score), m), k').
Proof.
  intros Hop Hrec legal_moves.
  induction legal_moves as [|lm rest IH]; intros best_score k.
  - exists (snd best_score), k. cbn. unfold ret.
    destruct best_score; reflexivity.
  - destruct (Hrec (forecast_move game lm) k) as (m0 & k0 & E0).
    cbn [minimax_loop fold_left]. unfold bind at 1. rewrite E0.
    match goal with
    | |- context [minimax_loop _ _ _ rest ?b k0] =>
        destruct (IH b k0) as (m & k' & E);
        assert (Hb : fst b = fop (fst best_score) (value (forecast_move game lm)))
          by (apply (minimax_step_score optimizer fop best_score
                       (value (forecast_move game lm), m0) lm Hop))
    end.
    rewrite Hb in E. exists m, k'. exact E.
Qed.

Hypothesis time_never_short : forall j, TIMER_THRESHOLD self <= time_left self j.

Lemma minimax_n_score (n : nat) :
  forall game mp k,
    exists m k',
      minimax_n self n game mp k
      = (Ok (one_sided_value self n game mp, m), k').
Proof.
  induction n as [|n IH]; intros game mp k;
    cbn [minimax_n one_sided_value];
    rewrite (guard_passes self time_never_short);
    destruct (get_legal_moves game) as [|lm0 rest] eqn:Hm.
  - destruct mp; eexists _, _; reflexivity.
  - destruct mp; eexists _, _; reflexivity.
  - destruct mp; eexists _, _; reflexivity.
  - destruct mp.
    + destruct (minimax_loop_score (fun g => minimax_n self n g true)
                  (fun g => one_sided_value self n g true)
                  Tuple.max Float.max game tuple_max_score
                  (fun g k0 => IH g true k0) (lm0 :: rest)
                  (NegInf, (0, 0)) (S k)) as (m & k' & E).
      exists m, k'. exact E.
    + destruct (minimax_loop_score (fun g => minimax_n self n g false)
                  (fun g => one_sided_value self n g false)
                  Tuple.min Float.min game tuple_min_score
                  (fun g k0 => IH g false k0) (lm0 :: rest)
                  (PosInf, (0, 0)) (S k)) as (m & k' & E).
      exists m, k'. exact E.
Qed.

(** X8: with a clock that never falls below the threshold,
    [minimax] returns, at every state and depth, the score [one_sided_value]:
    0 on a state without legal moves, the evaluation at depth 0, and
    otherwise the maximum over the legal moves of the successors' scores when
    called with [True] (the minimum when called with [False]), computed with
    the same flag on every layer. *)
Theorem minimax_score_is_one_sided (game : Board) (depth : Z) (mp : bool)
    (k : nat) :
  exists m k',
    minimax self game depth mp k
    = (Ok (one_sided_value self (Z.to_nat depth) game mp, m), k').
Proof. apply minimax_n_score. Qed.

End MinimaxFacts.

Section LegalMoves.

Context {Board Player : Type} {provider : Provider Board Player}.
Variable self : @CustomPlayer Board Player.

Lemma float_eqb_refl (a : pyfloat) : Float.eqb a a = true.
Proof. destruct a; cbn; [reflexivity|apply Z.eqb_refl|reflexivity]. Qed.

Lemma tuple_eqb_refl (a : result) : Tuple.eqb a a = true.
Proof.
  unfold Tuple.eqb, Tuple.move_eqb.
  rewrite float_eqb_refl, !Z.eqb_refl. reflexivity.
Qed.

Lemma tuple_max_cases (a b : result) : Tuple.max a b = a \/ Tuple.max a b = b.
Proof. unfold Tuple.max. destruct (Tuple.ltb a b); auto. Qed.

Lemma tuple_min_cases (a b : result) : Tuple.min a b = a \/ Tuple.min a b = b.
Proof. unfold Tuple.min. destruct (Tuple.ltb b a); auto. Qed.

(** The loop of [minimax] over finite child scores: once a move has been
    examined, the best pair holds a finite score and one of the moves. *)
Lemma minimax_loop_keeps_a_move (rec : Board -> M result)
    (optimizer : result -> result -> result) (game : Board)
    (initial : result) (all : list Move) :
  (forall a b, optimizer a b = a \/ optimizer a b = b) ->
  (forall z mv, optimizer initial (Fin z, mv) = (Fin z, mv)) ->
  (forall g k r k', rec g k = (Ok r, k') -> exists z, fst r = Fin z) ->
  forall rest best k r k',
    incl rest all ->
    best = initial \/ ((exists z, fst best = Fin z) /\ In (snd best) all) ->
    minimax_loop rec optimizer game rest best k = (Ok r, k') ->
    (rest = [] /\ r = best) \/
    ((exists z, fst r = Fin z) /\ In (snd r) all).
Proof.
  intros Hcases Hinit Hrec rest.
  induction rest as [|lm rest IH]; intros best k r k' Hincl Hbest E.
  - left. cbn in E. unfold ret in E. inversion E. auto.
  - right. cbn [minimax_loop] in E. unfold bind at 1 in E.
    destruct (rec (forecast_move game lm) k) as [[child|e] k0] eqn:Ec;
      [|discriminate].
    destruct (Hrec _ _ _ _ Ec) as [zc Hzc].
    assert (Hlm : In lm all) by (apply Hincl; left; reflexivity).
    assert (Hrest : incl rest all)
      by (intros x Hx; apply Hincl; right; exact Hx).
    assert (Hnew :
      let b := if Tuple.eqb (optimizer best child) child
               then (fst (optimizer best child), lm)
               else optimizer best child in
      (exists z, fst b = Fin z) /\ In (snd b) all).
    { cbn zeta. destruct Hbest as [->|[[zb Hzb] Hin]].
      - destruct child as [cs cm]. cbn [fst] in Hzc. subst cs.
        rewrite Hinit, tuple_eqb_refl. cbn. eauto.
      - destruct (Hcases best child) as [->| ->].
        + destruct (Tuple.eqb best child); cbn [fst snd]; eauto.
        + rewrite tuple_eqb_refl. cbn [fst snd]. eauto. }
    cbn zeta in Hnew.
    destruct (IH _ _ _ _ Hrest (or_intror Hnew) E) as [[_ ->]|H];
      [exact Hnew|exact H].
Qed.

Hypothesis finite : finite_evaluation self.

Lemma minimax_n_shape (n : nat) :
  forall game mp k r k',
    minimax_n self n game mp k = (Ok r, k') ->
    (exists z, fst r = Fin z) /\
    (n <> O -> get_legal_moves game <> [] -> In (snd r) (get_legal_moves game)).
Proof.
  induction n as [|n IH]; intros game mp k r k' E;
    cbn [minimax_n] in E; rewrite guard_bind in E;
    destruct (time_left self k <? TIMER_THRESHOLD self); try discriminate;
    destruct (get_legal_moves game) as [|lm0 rest] eqn:Hm.
  - destruct mp; inversion E; (split; [cbn; eauto|contradiction]).
  - destruct mp; inversion E; (split; [apply finite|contradiction]).
  - destruct mp; inversion E; (split; [cbn; eauto|intros H; contradiction]).
  - assert (Hrec : forall mp' g k0 r0 k1,
              minimax_n self n g mp' k0 = (Ok r0, k1) -> exists z, fst r0 = Fin z)
      by (intros mp' g k0 r0 k1 E0; exact (proj1 (IH _ _ _ _ _ E0))).
    destruct mp.
    + destruct (minimax_loop_keeps_a_move
                  (fun g => minimax_n self n g true) Tuple.max game
                  (NegInf, (0, 0)) (lm0 :: rest) tuple_max_cases
                  (fun z mv => eq_refl) (Hrec true) (lm0 :: rest)
                  (NegInf, (0, 0)) (S k) r k' (incl_refl _)
                  (or_introl eq_refl) E) as [[H _]|[Hz Hin]];
        [discriminate|]. split; [exact Hz|intros _ _; exact Hin].
    + destruct (minimax_loop_keeps_a_move
                  (fun g => minimax_n self n g false) Tuple.min game
                  (PosInf, (0, 0)) (lm0 :: rest) tuple_min_cases
                  (fun z mv => eq_refl) (Hrec false) (lm0 :: rest)
                  (PosInf, (0, 0)) (S k) r k' (incl_refl _)
                  (or_introl eq_refl) E) as [[H _]|[Hz Hin]];
        [discriminate|]. split; [exact Hz|intros _ _; exact Hin].
Qed.

(** With a finite evaluation function, a call of [minimax] that expands a
    state with legal moves returns one of them. *)
Lemma minimax_move_is_legal (game : Board) (depth : Z) (mp : bool)
    (k : nat) (v : pyfloat) (m : Move) (k' : nat) :
  0 < depth ->
  get_legal_moves game <> [] ->
  minimax self game depth mp k = (Ok (v, m), k') ->
  In m (get_legal_moves game) /\ exists z, v = Fin z.
Proof.
  intros Hd Hm E. unfold minimax in E.
  destruct (minimax_n_shape _ _ _ _ _ _ E) as [Hz Hin].
  split; [|exact Hz]. apply Hin; [lia|exact Hm].
Qed.

(** X9: with an evaluation function that is finite on every state,
    [minimax] at depth > 0 on a state that has legal moves returns, when it
    returns, a finite score and one of the legal moves of that state. *)
Theorem minimax_returns_a_legal_move (game : Board) (depth : Z) (mp : bool)
    (k : nat) (v : pyfloat) (m : Move) (k' : nat) :
  0 < depth ->
  get_legal_moves game <> [] ->
  minimax self game depth mp k = (Ok (v, m), k') ->
  In m (get_legal_moves game) /\ exists z, v = Fin z.
Proof. apply minimax_move_is_legal. Qed.

End LegalMoves.

Section GetMoveFacts.

Context {Board Player : Type} {provider : Provider Board Player}.

Lemma tuple_max_result_cases (a b : result) :
  Tuple.max a b = a \/ Tuple.max a b = b.
Proof. unfold Tuple.max. destruct (Tuple.ltb a b); auto. Qed.

(** The iterative loop is left by [Timeout] only. *)
Lemma iterative_loop_only_times_out (self : @CustomPlayer Board Player)
    (game : Board) (fuel : nat) :
  forall iterator best k e best' k',
    iterative_loop fuel self game iterator best k = Some (e, best', k') ->
    e = Timeout.
Proof.
  induction fuel as [|fuel IH]; intros iterator best k e best' k' E;
    [discriminate|].
  cbn [iterative_loop] in E.
  destruct (minimax self game iterator true k) as [[r|e0] k1] eqn:Em.
  - eapply IH, E.
  - inversion E; subst.
    exact (proj2 (minimax_guarded self _ _ _ _ _ _ Em)).
Qed.



Lemma iterative_loop_legal (self : @CustomPlayer Board Player)
    (game : Board) (fuel : nat) :
  finite_evaluation self ->
  forall iterator best k e best' k',
    0 < iterator ->
    snd best = NO_MOVE \/ In (snd best) (get_legal_moves game) ->
    iterative_loop fuel self game iterator best k = Some (e, best', k') ->
    snd best' = NO_MOVE \/ In (snd best') (get_legal_moves game).
Proof.
  intros Hfin. induction fuel as [|fuel IH];
    intros iterator best k e best' k' Hit Hb E; [discriminate|].
  cbn [iterative_loop] in E.
  destruct (minimax self game iterator true k) as [[r|e0] k1] eqn:Em.
  - eapply IH; [| |exact E]; [lia|].
    destruct (tuple_max_result_cases best r) as [-> | ->]; [exact Hb|].
    destruct (get_legal_moves game) as [|lm0 rest] eqn:Hm.
    + left. rewrite (minimax_no_moves self game iterator true k Hm) in Em.
      unfold guard_then in Em.
      destruct (time_left self k <? TIMER_THRESHOLD self);
        inversion Em; reflexivity.
    + right. destruct r as [v m]. rewrite <- Hm.
      refine (proj1 (minimax_move_is_legal self Hfin game iterator
                       true k v m k1 Hit _ Em)).
      rewrite Hm. discriminate.
  - inversion E; subst. exact Hb.
Qed.

(** X10: with an evaluation function that is finite on every
    state (and a positive [search_depth] in fixed-depth mode), the move
    [get_move] returns is (-1, -1) or a legal move of the state it was
    given. *)
Theorem get_move_returns_legal_move_or_sentinel (fuel : nat)
    (self : @CustomPlayer Board Player) (game : Board)
    (legal_moves : list Move) (clock : nat -> Z) (k : nat)
    (r : res Move) (k' : nat) :
  finite_evaluation self ->
  (iterative self = false -> 0 < search_depth self) ->
  get_move fuel self game legal_moves clock k = Some (r, k') ->
  exists m, r = Ok m /\ (m = (-1, -1) \/ In m (get_legal_moves game)).
Proof.
  intros Hfin Hdepth. unfold get_move. intros E.
  assert (Hfin' : finite_evaluation (set_time_left self clock)) by exact Hfin.
  change (iterative (set_time_left self clock)) with (iterative self) in E.
  change (search_depth (set_time_left self clock)) with (search_depth self) in E.
  destruct (iterative self) eqn:Hi.
  - destruct (iterative_loop fuel (set_time_left self clock) game 1
                (NegInf, NO_MOVE) k) as [[[e best] k1]|] eqn:El;
      [|discriminate].
    rewrite (iterative_loop_only_times_out _ _ _ _ _ _ _ _ _ El) in E.
    inversion E. eexists. split; [reflexivity|].
    refine (iterative_loop_legal _ game fuel Hfin' 1 _ k _ _ _ _ _ El);
      [lia|left; reflexivity].
  - destruct (get_legal_moves game) as [|lm0 rest] eqn:Hm.
    + inversion E. eexists. split; [reflexivity|left; reflexivity].
    + destruct (minimax (set_time_left self clock) game (search_depth self)
                  true k) as [[[v m]|e] k1] eqn:Em.
      * inversion E. eexists. split; [reflexivity|]. right. rewrite <- Hm.
        refine (proj1 (minimax_move_is_legal _ Hfin' game _ true k v m
                         k1 (Hdepth eq_refl) _ Em)).
        rewrite Hm. discriminate.
      * rewrite (proj2 (minimax_guarded _ _ _ _ _ _ _ Em)) in E.
        inversion E. eexists. split; [reflexivity|left; reflexivity].
Qed.



(** X16: the move [get_move] returns does not depend on
    [self.method]: two players that differ in that attribute only return the
    same move at the same clock state. *)
Theorem get_move_ignores_method (self : @CustomPlayer Board Player)
    (m : string) (fuel : nat) (game : Board) (legal_moves : list Move)
    (clock : nat -> Z) (k : nat) :
  get_move fuel (with_method self m) game legal_moves clock k =
  get_move fuel self game legal_moves clock k.
Proof. apply get_move_method_irrelevant. Qed.

End GetMoveFacts.

Section TupleOrder.

Ltac tuple_order :=
  repeat match goal with
         | a : result |- _ => destruct a as [? [? ?]]
         end;
  unfold Tuple.max, Tuple.ltb, Tuple.move_ltb in *; cbn [fst snd] in *;
  repeat match goal with
         | x : pyfloat |- _ => destruct x
         end;
  cbn [Float.eqb Float.ltb] in *;
  repeat match goal with
         | H : context [?x =? ?y] |- _ => destruct (Z.eqb_spec x y)
         | |- context [?x =? ?y] => destruct (Z.eqb_spec x y)
         | H : context [?x <? ?y] |- _ => destruct (Z.ltb_spec x y)
         | |- context [?x <? ?y] => destruct (Z.ltb_spec x y)
         end;
  cbn [fst snd Float.eqb Float.ltb] in *;
  try discriminate; try reflexivity; try lia.

Lemma tuple_ltb_irrefl (a : result) : Tuple.ltb a a = false.
Proof. tuple_order. Qed.

Lemma tuple_le_trans (a b c : result) :
  Tuple.ltb b a = false -> Tuple.ltb c b = false -> Tuple.ltb c a = false.
Proof. intros H1 H2. tuple_order. Qed.

Lemma tuple_max_ge_left (a b : result) : Tuple.ltb (Tuple.max a b) a = false.
Proof.
  unfold Tuple.max. destruct (Tuple.ltb a b) eqn:E.
  - tuple_order.
  - apply tuple_ltb_irrefl.
Qed.

Lemma tuple_max_ge_right (a b : result) : Tuple.ltb (Tuple.max a b) b = false.
Proof.
  unfold Tuple.max. destruct (Tuple.ltb a b) eqn:E.
  - apply tuple_ltb_irrefl.
  - exact E.
Qed.

End TupleOrder.

Section BestIteration.

Context {Board Player : Type} {provider : Provider Board Player}.

Lemma iterative_loop_keeps_greatest (self : @CustomPlayer Board Player)
    (game : Board) (fuel : nat) :
  forall iterator best k e best' k',
    iterative_loop fuel self game iterator best k = Some (e, best', k') ->
    (best' = best \/
     In best' (completed_iterations fuel self game iterator k)) /\
    Tuple.ltb best' best = false /\
    forall x, In x (completed_iterations fuel self game iterator k) ->
              Tuple.ltb best' x = false.
Proof.
  induction fuel as [|fuel IH]; intros iterator best k e best' k' E;
    [discriminate|].
  cbn [iterative_loop completed_iterations] in *.
  destruct (minimax self game iterator true k) as [[r|e0] k1] eqn:Em.
  - destruct (IH _ _ _ _ _ _ E) as (Hin & Hge & Hall).
    split; [|split].
    + destruct Hin as [-> | Hin]; [|right; right; exact Hin].
      unfold Tuple.max. destruct (Tuple.ltb best r); [right; left|left];
        reflexivity.
    + eapply tuple_le_trans; [apply tuple_max_ge_left|exact Hge].
    + intros x [<- | Hx]; [|apply Hall, Hx].
      eapply tuple_le_trans; [apply tuple_max_ge_right|exact Hge].
  - inversion E; subst. split; [left; reflexivity|].
    split; [apply tuple_ltb_irrefl|intros x []].
Qed.

(** X14: in iterative mode the move [get_move] returns is the move
    of the initial pair (-inf, (-1, -1)) or of a completed iteration, and no
    completed iteration has a greater (score, move) pair in Python's tuple
    order: the loop keeps the greatest pair, not the latest. *)
Theorem get_move_keeps_greatest_completed_result (fuel : nat)
    (self : @CustomPlayer Board Player) (game : Board)
    (legal_moves : list Move) (clock : nat -> Z) (k : nat)
    (r : res Move) (k' : nat) :
  iterative self = true ->
  get_move fuel self game legal_moves clock k = Some (r, k') ->
  exists best,
    r = Ok (snd best) /\
    (best = (NegInf, (-1, -1)) \/
     In best
        (completed_iterations fuel (set_time_left self clock) game 1 k)) /\
    forall x,
      In x (completed_iterations fuel (set_time_left self clock) game 1 k) ->
      Tuple.ltb best x = false.
Proof.
  intros Hi. unfold get_move.
  change (iterative (set_time_left self clock)) with (iterative self).
  rewrite Hi. intros E.
  destruct (iterative_loop fuel (set_time_left self clock) game 1
              (NegInf, NO_MOVE) k) as [[[e best] k1]|] eqn:El; [|discriminate].
  rewrite (iterative_loop_only_times_out _ _ _ _ _ _ _ _ _ El) in E.
  destruct (iterative_loop_keeps_greatest _ _ _ _ _ _ _ _ _ El)
    as (Hin & _ & Hall).
  exists best. inversion E. split; [reflexivity|]. split; assumption.
Qed.

End BestIteration.

Section OnePly.

Context {Board Player : Type} {provider : Provider Board Player}.
Variable self : @CustomPlayer Board Player.

Lemma float_max_assoc (a b c : pyfloat) :
  Float.max (Float.max a b) c = Float.max a (Float.max b c).
Proof. apply same_eq. float_order. Qed.

Lemma float_min_assoc (a b c : pyfloat) :
  Float.min (Float.min a b) c = Float.min a (Float.min b c).
Proof. apply same_eq. float_order. Qed.

Lemma float_max_neg_inf (a : pyfloat) : Float.max a NegInf = a.
Proof. destruct a; reflexivity. Qed.

Lemma float_min_pos_inf (a : pyfloat) : Float.min a PosInf = a.
Proof. destruct a; reflexivity. Qed.

Lemma float_max_neg_inf_left (b : pyfloat) : Float.max NegInf b = b.
Proof. destruct b; reflexivity. Qed.

Lemma float_min_pos_inf_left (b : pyfloat) : Float.min PosInf b = b.
Proof. destruct b; reflexivity. Qed.

(** Folding [max] from the left, as the loop of [minimax] does, or from the
    right gives the same score. *)
Lemma fold_max_left_right {A} (f : A -> pyfloat) (l : list A) :
  forall init,
    fold_left (fun best x => Float.max best (f x)) l init
    = Float.max init (fold_right (fun x acc => Float.max (f x) acc) NegInf l).
Proof.
  induction l as [|x l IH]; intros init; cbn [fold_left fold_right].
  - symmetry. apply float_max_neg_inf.
  - rewrite IH. apply float_max_assoc.
Qed.

Lemma fold_min_left_right {A} (f : A -> pyfloat) (l : list A) :
  forall init,
    fold_left (fun best x => Float.min best (f x)) l init
    = Float.min init (fold_right (fun x acc => Float.min (f x) acc) PosInf l).
Proof.
  induction l as [|x l IH]; intros init; cbn [fold_left fold_right].
  - symmetry. apply float_min_pos_inf.
  - rewrite IH. apply float_min_assoc.
Qed.

Lemma fold_right_ext_in {A B} (f g : A -> B -> B) (l : list A) (b : B) :
  (forall x acc, In x l -> f x acc = g x acc) ->
  fold_right f b l = fold_right g b l.
Proof.
  induction l as [|x l IH]; intros H; cbn [fold_right]; [reflexivity|].
  rewrite IH by (intros y acc Hy; apply H; right; exact Hy).
  apply H. left. reflexivity.
Qed.

(** One ply deep the score [minimax] computes is the minimax value. *)
Lemma one_ply_values_agree (state : Board) (mp : bool) :
  regular self 1 state ->
  one_sided_value self 1 state mp = minimax_value self 1 state mp.
Proof.
  intros [Hne Hkids]. cbn [one_sided_value minimax_value].
  destruct (get_legal_moves state) as [|lm0 rest] eqn:Hm; [contradiction|].
  destruct mp.
  - rewrite fold_max_left_right, float_max_neg_inf_left.
    apply fold_right_ext_in. intros x acc Hx.
    destruct (Hkids x Hx) as [Hc _].
    destruct (get_legal_moves (forecast_move state x));
      [contradiction|reflexivity].
  - rewrite fold_min_left_right, float_min_pos_inf_left.
    apply fold_right_ext_in. intros x acc Hx.
    destruct (Hkids x Hx) as [Hc _].
    destruct (get_legal_moves (forecast_move state x));
      [contradiction|reflexivity].
Qed.

(** X17: one ply deep [minimax] and [alphabeta] agree on the
    score.  On a state that is regular one ply deep, with a clock that never
    falls below the threshold, both called at depth 1 with the same flag
    return the same score (the moves may differ). *)
Theorem one_ply_scores_agree (state : Board) (mp : bool) (k : nat) :
  regular self 1 state ->
  (forall j, TIMER_THRESHOLD self <= time_left self j) ->
  exists v m1 k1 m2,
    minimax self state 1 mp k = (Ok (v, m1), k1) /\
    alphabeta self state 1 NegInf PosInf mp k = (Ok (v, m2), S k).
Proof.
  intros Hreg Hpass.
  destruct (minimax_n_score self Hpass (Z.to_nat 1) state mp k)
    as (m1 & k1 & E1).
  fold (minimax self state 1 mp) in E1.
  assert (Hd : 0 < 1) by lia.
  destruct (alphabeta_root_value self state 1 mp k Hd Hreg (Hpass k))
    as (m2 & E2 & _).
  change (Z.to_nat 1) with 1%nat in *.
  rewrite (one_ply_values_agree state mp Hreg) in E1.
  eauto 10.
Qed.

End OnePly.

Section Optimism.

Context {Board Player : Type} {provider : Provider Board Player}.
Variable self : @CustomPlayer Board Player.

Lemma order_le_refl (a : pyfloat) : Order.le a a.
Proof. float_order. Qed.

Lemma order_le_trans (a b c : pyfloat) :
  Order.le a b -> Order.le b c -> Order.le a c.
Proof. intros H1 H2. float_order. Qed.

Lemma order_max_mono (a a' b b' : pyfloat) :
  Order.le a a' -> Order.le b b' ->
  Order.le (Float.max a b) (Float.max a' b').
Proof. intros H1 H2. float_order. Qed.

Lemma order_le_max_left (a b : pyfloat) : Order.le a (Float.max a b).
Proof. float_order. Qed.

Lemma order_min_le_left (a b : pyfloat) : Order.le (Float.min a b) a.
Proof. float_order. Qed.

Lemma fold_max_mono {A} (f g : A -> pyfloat) (l : list A) :
  (forall x, In x l -> Order.le (f x) (g x)) ->
  Order.le (fold_right (fun x acc => Float.max (f x) acc) NegInf l)
           (fold_right (fun x acc => Float.max (g x) acc) NegInf l).
Proof.
  induction l as [|x l IH]; intros H; cbn [fold_right].
  - exact I.
  - apply order_max_mono.
    + apply H. left. reflexivity.
    + apply IH. intros y Hy. apply H. right. exact Hy.
Qed.

(** Called with [maximizing_player = True], [minimax] computes a score that
    is at least the minimax value, whichever side is to move. *)
Lemma one_sided_value_dominates (n : nat) :
  forall state mp,
    regular self n state ->
    Order.le (minimax_value self n state mp) (one_sided_value self n state true).
Proof.
  induction n as [|n IH]; intros state mp [Hne Hreg].
  - cbn [minimax_value one_sided_value].
    destruct (get_legal_moves state); [contradiction|]. apply order_le_refl.
  - cbn [minimax_value one_sided_value].
    destruct (get_legal_moves state) as [|lm0 rest] eqn:Hm; [contradiction|].
    rewrite fold_max_left_right, float_max_neg_inf_left.
    destruct mp.
    + apply fold_max_mono. intros x Hx. apply IH, Hreg, Hx.
    + cbn [fold_right].
      eapply order_le_trans; [apply order_min_le_left|].
      eapply order_le_trans; [|apply order_le_max_left].
      apply IH, Hreg. left. reflexivity.
Qed.

(** X18: called as [get_move] calls it (flag [True]), [minimax]
    never returns less than alpha-beta.  On a state that is regular [depth]
    plies deep, with a clock that never falls below the threshold, the score
    of [minimax] is at least the score [alphabeta] returns with the full
    window, for either flag of [alphabeta]. *)
Theorem minimax_score_is_optimistic (state : Board) (depth : Z) (mp : bool)
    (k : nat) :
  0 < depth ->
  regular self (Z.to_nat depth) state ->
  (forall j, TIMER_THRESHOLD self <= time_left self j) ->
  exists v m1 k1 w m2,
    minimax self state depth true k = (Ok (v, m1), k1) /\
    alphabeta self state depth NegInf PosInf mp k = (Ok (w, m2), S k) /\
    Order.le w v.
Proof.
  intros Hd Hreg Hpass.
  destruct (minimax_n_score self Hpass (Z.to_nat depth) state true k)
    as (m1 & k1 & E1).
  fold (minimax self state depth true) in E1.
  destruct (alphabeta_root_value self state depth mp k Hd Hreg (Hpass k))
    as (m2 & E2 & _).
  eexists _, _, _, _, _. split; [exact E1|]. split; [exact E2|].
  apply one_sided_value_dominates, Hreg.
Qed.

End Optimism.

Section HeuristicBounds.

Context {Board Player : Type} {provider : Provider Board Player}
        {queries : BoardQueries Board Player}.

Lemma weight_four_le (game : Board) (row col : Z) (table : list Move) :
  forall score, weight_four game row col table score <= score + Cap.four table.
Proof.
  unfold weight_four, Cap.four.
  induction table as [|d table IH]; intros score; cbn [fold_left List.length].
  - lia.
  - destruct (move_is_legal game (offset row col d));
      [specialize (IH (score + 16))|specialize (IH score)]; lia.
Qed.

Lemma weight_three_le (game : Board) (row col : Z)
    (table : list (Move * list Move)) :
  forall score, weight_three game row col table score <= score + Cap.three table.
Proof.
  unfold weight_three.
  induction table as [|[d below] table IH]; intros score;
    cbn [fold_left Cap.three fold_right snd].
  - lia.
  - pose proof (Nat2Z.is_nonneg (List.length below)) as Hb.
    assert (0 <= Cap.four below) by (unfold Cap.four; lia).
    destruct (move_is_legal game (offset row col d)).
    + pose proof (weight_four_le game row col below (score + 8)).
      specialize (IH (weight_four game row col below (score + 8))).
      fold (Cap.three table). lia.
    + specialize (IH score). fold (Cap.three table). lia.
Qed.

Lemma cap_three_nonneg (table : list (Move * list Move)) : 0 <= Cap.three table.
Proof.
  induction table as [|[d below] table IH]; cbn [Cap.three fold_right snd].
  - lia.
  - fold (Cap.three table). unfold Cap.four. lia.
Qed.

Lemma weight_two_le (game : Board) (row col : Z)
    (table : list (Move * list (Move * list Move))) :
  forall score, weight_two game row col table score <= score + Cap.two table.
Proof.
  unfold weight_two.
  induction table as [|[d below] table IH]; intros score;
    cbn [fold_left Cap.two fold_right snd].
  - lia.
  - pose proof (cap_three_nonneg below).
    destruct (move_is_legal game (offset row col d)).
    + pose proof (weight_three_le game row col below (score + 4)).
      specialize (IH (weight_three game row col below (score + 4))).
      fold (Cap.two table). lia.
    + specialize (IH score). fold (Cap.two table). lia.
Qed.

Lemma cap_two_nonneg (table : list (Move * list (Move * list Move))) :
  0 <= Cap.two table.
Proof.
  induction table as [|[d below] table IH]; cbn [Cap.two fold_right snd].
  - lia.
  - fold (Cap.two table). pose proof (cap_three_nonneg below). lia.
Qed.

Lemma weight_one_le (game : Board) (row col : Z)
    (table : list (Move * list (Move * list (Move * list Move)))) :
  forall score, weight_one game row col table score <= score + Cap.one table.
Proof.
  unfold weight_one.
  induction table as [|[d below] table IH]; intros score;
    cbn [fold_left Cap.one fold_right snd].
  - lia.
  - pose proof (cap_two_nonneg below).
    destruct (move_is_legal game (offset row col d)).
    + pose proof (weight_two_le game row col below (score + 1)).
      specialize (IH (weight_two game row col below (score + 1))).
      fold (Cap.one table). lia.
    + specialize (IH score). fold (Cap.one table). lia.
Qed.

(** X19: in a state the player has neither lost nor won,
    [future_moves_weight] is the float of an integer between 0 and 1183. *)
Theorem future_moves_weight_range (game : Board) (player : Player) :
  is_loser game player = false ->
  is_winner game player = false ->
  exists z, future_moves_weight game player = Fin z /\ 0 <= z <= 1183.
Proof.
  intros Hl Hw. unfold future_moves_weight. rewrite Hl, Hw.
  destruct (get_player_location game player) as [row col].
  eexists. split; [reflexivity|]. split; [apply weight_one_ge|].
  pose proof (weight_one_le game row col Directions.directions 0) as H.
  change (Cap.one Directions.directions) with 1183 in H. lia.
Qed.

Section SameAnswers.

Variables (g1 g2 : Board) (row col : Z).

(** Two boards that answer alike about a direction. *)
Let alike (d : Move) : Prop :=
  move_is_legal g1 (offset row col d) = move_is_legal g2 (offset row col d).

Lemma weight_four_ext (table : list Move) :
  (forall d, In d table -> alike d) ->
  forall score,
    weight_four g1 row col table score = weight_four g2 row col table score.
Proof.
  unfold weight_four.
  induction table as [|d table IH]; intros H score; cbn [fold_left];
    [reflexivity|].
  rewrite (H d (or_introl eq_refl)).
  apply IH. intros d' Hd'. apply H. right. exact Hd'.
Qed.

Lemma weight_three_ext (table : list (Move * list Move)) :
  (forall d, In d (Cap.asked_three table) -> alike d) ->
  forall score,
    weight_three g1 row col table score = weight_three g2 row col table score.
Proof.
  unfold weight_three.
  induction table as [|[d below] table IH]; intros H score; cbn [fold_left];
    [reflexivity|].
  cbn [Cap.asked_three flat_map fst snd] in H.
  rewrite (H d (or_introl eq_refl)).
  rewrite (weight_four_ext below)
    by (intros d' Hd'; apply H; right; apply in_or_app; left; exact Hd').
  apply IH. intros d' Hd'. apply H. right. apply in_or_app. right. exact Hd'.
Qed.

Lemma weight_two_ext (table : list (Move * list (Move * list Move))) :
  (forall d, In d (Cap.asked_two table) -> alike d) ->
  forall score,
    weight_two g1 row col table score = weight_two g2 row col table score.
Proof.
  unfold weight_two.
  induction table as [|[d below] table IH]; intros H score; cbn [fold_left];
    [reflexivity|].
  cbn [Cap.asked_two flat_map fst snd] in H.
  rewrite (H d (or_introl eq_refl)).
  rewrite (weight_three_ext below)
    by (intros d' Hd'; apply H; right; apply in_or_app; left; exact Hd').
  apply IH. intros d' Hd'. apply H. right. apply in_or_app. right. exact Hd'.
Qed.

Lemma weight_one_ext
    (table : list (Move * list (Move * list (Move * list Move)))) :
  (forall d, In d (Cap.asked_one table) -> alike d) ->
  forall score,
    weight_one g1 row col table score = weight_one g2 row col table score.
Proof.
  unfold weight_one.
  induction table as [|[d below] table IH]; intros H score; cbn [fold_left];
    [reflexivity|].
  cbn [Cap.asked_one flat_map fst snd] in H.
  rewrite (H d (or_introl eq_refl)).
  rewrite (weight_two_ext below)
    by (intros d' Hd'; apply H; right; apply in_or_app; left; exact Hd').
  apply IH. intros d' Hd'. apply H. right. apply in_or_app. right. exact Hd'.
Qed.

End SameAnswers.

(** The knight jump (-2, +1) is in none of the tables. *)
Lemma jump_not_asked (d : Move) :
  In d (Cap.asked_one Directions.directions) -> d <> (-2, 1).
Proof.
  intros Hd ->.
  assert (H : existsb (Tuple.move_eqb (-2, 1))
                (Cap.asked_one Directions.directions) = true)
    by (apply existsb_exists; exists (-2, 1); split; [exact Hd|reflexivity]).
  vm_compute in H. discriminate H.
Qed.

(** X20: [future_moves_weight] never asks about the cell two
    rows up and one column right of the player, the knight jump (-2, +1):
    two boards that agree on the outcome, on the player's location and on
    the legality of every other cell get the same score. *)
Theorem future_moves_weight_ignores_one_jump (g1 g2 : Board)
    (player : Player) :
  is_loser g1 player = is_loser g2 player ->
  is_winner g1 player = is_winner g2 player ->
  get_player_location g1 player = get_player_location g2 player ->
  (forall cell,
     cell <> (fst (get_player_location g1 player) - 2,
              snd (get_player_location g1 player) + 1) ->
     move_is_legal g1 cell = move_is_legal g2 cell) ->
  future_moves_weight g1 player = future_moves_weight g2 player.
Proof.
  intros Hl Hw Hloc Hlegal. unfold future_moves_weight.
  rewrite <- Hl, <- Hw, <- Hloc.
  destruct (is_loser g1 player); [reflexivity|].
  destruct (is_winner g1 player); [reflexivity|].
  destruct (get_player_location g1 player) as [row col]. cbn [fst snd] in Hlegal.
  f_equal. apply weight_one_ext. intros [a b] Hd.
  apply Hlegal. unfold offset. cbn [fst snd].
  intros E. apply (jump_not_asked (a, b) Hd).
  injection E as E1 E2. f_equal; lia.
Qed.

(** X21: [mixed_heuristic] returns the score of [future_moves_weight]
    when twice the number of blank spaces is below width * height, and
    raises [NameError] for [difference_player_biased] in every other state:
    in integers, the test [width * height / 2 > len(blank)] of the code
    with Python 3's true division. *)
Theorem mixed_heuristic_returns_or_name_error (game : Board) (player : Player) :
  (2 * Z.of_nat (List.length (get_blank_spaces game)) < width game * height game ->
   mixed_heuristic game player = Ok (future_moves_weight game player)) /\
  (width game * height game <= 2 * Z.of_nat (List.length (get_blank_spaces game)) ->
   mixed_heuristic game player = Raise (NameError "difference_player_biased")).
Proof.
  pose proof (less_than_half_blank_spec game) as Hs.
  unfold mixed_heuristic.
  destruct (less_than_half_blank game); split; intros H; try reflexivity.
  - assert (Hlt : 2 * Z.of_nat (List.length (get_blank_spaces game))
                  < width game * height game) by (apply Hs; reflexivity).
    lia.
  - apply Hs in H. discriminate H.
Qed.

End HeuristicBounds.

(** ** The searches with an evaluation function that may raise *)

Section AnyEvaluationFacts.

Context {Board Player : Type} {provider : Provider Board Player}.
Variable evaluate : Board -> Player -> res pyfloat.
Variable self : @CustomPlayer Board Player.

Lemma cancels_ret {A} (a : A) : cancels_or_fails evaluate self (ret a).
Proof.
  intros k r k' E. inversion E; subst. split; [lia|]. intros j Hj; lia.
Qed.

Lemma cancels_bind {A B} (c : M A) (f : A -> M B) :
  cancels_or_fails evaluate self c ->
  (forall a, cancels_or_fails evaluate self (f a)) ->
  cancels_or_fails evaluate self (bind c f).
Proof.
  intros Hc Hf k r k' E. unfold bind in E.
  destruct (c k) as [[a|e] k1] eqn:Ec.
  - destruct (Hc _ _ _ Ec) as [Hle Hp].
    destruct (Hf a _ _ _ E) as [Hle' Hr].
    split; [lia|]. destruct r.
    + eapply readings_pass_trans; eassumption.
    + destruct Hr as [(He & Hlt & Hpass & Hshort)|[Hpass Hev]].
      * left. repeat split; try assumption; try lia.
        eapply readings_pass_trans; eassumption.
      * right. split; [|exact Hev].
        eapply readings_pass_trans; eassumption.
  - inversion E; subst. exact (Hc _ _ _ Ec).
Qed.

Lemma cancels_time_guard : cancels_or_fails evaluate self (time_guard self).
Proof.
  intros k r k' E. rewrite time_guard_run in E. unfold guard_then in E.
  destruct (time_left self k <? TIMER_THRESHOLD self) eqn:Ht;
    inversion E; subst; (split; [lia|]).
  - left. cbn [Nat.pred]. split; [reflexivity|]. split; [lia|].
    split; [intros j Hj; lia|apply Z.ltb_lt, Ht].
  - intros j Hj. assert (j = k) by lia. subst j. apply Z.ltb_ge, Ht.
Qed.

Lemma cancels_call_score (game : Board) :
  cancels_or_fails evaluate self (call_score evaluate game (me self)).
Proof.
  intros k r k' E. unfold call_score in E. inversion E; subst.
  split; [lia|]. destruct (evaluate game (me self)) eqn:Ev.
  - intros j Hj; lia.
  - right. split; [intros j Hj; lia|]. exists game. exact Ev.
Qed.

Lemma minimax_loop_cancels (rec : Board -> M result)
    (optimizer : result -> result -> result) (game : Board) :
  (forall g, cancels_or_fails evaluate self (rec g)) ->
  forall legal_moves best_score,
    cancels_or_fails evaluate self
      (minimax_loop rec optimizer game legal_moves best_score).
Proof.
  intros Hrec legal_moves.
  induction legal_moves as [|lm rest IH]; intros best_score; simpl.
  - apply cancels_ret.
  - apply cancels_bind; [apply Hrec|]. intros r. apply IH.
Qed.

Lemma minimax_with_cancels (n : nat) :
  forall game mp,
    cancels_or_fails evaluate self (minimax_with evaluate self n game mp).
Proof.
  induction n as [|n IH]; intros game mp; simpl;
    (apply cancels_bind; [apply cancels_time_guard|]); intros [];
    destruct mp; destruct (get_legal_moves game) eqn:Hm;
    try apply cancels_ret;
    try (apply cancels_bind; [apply cancels_call_score|];
         intros v; apply cancels_ret);
    apply minimax_loop_cancels; intros g; apply IH.
Qed.

Lemma minimax_with_reads_the_clock (n : nat) (game : Board) (mp : bool)
    (k : nat) (r : res result) (k' : nat) :
  minimax_with evaluate self n game mp k = (r, k') -> (k < k')%nat.
Proof.
  intros E.
  assert (Hg : forall c : unit -> M result,
             (forall u, cancels_or_fails evaluate self (c u)) ->
             bind (time_guard self) c k = (r, k') -> (k < k')%nat).
  { intros c Hc Eb. rewrite guard_bind in Eb.
    destruct (time_left self k <? TIMER_THRESHOLD self).
    - inversion Eb; lia.
    - destruct (Hc tt _ _ _ Eb); lia. }
  destruct n as [|n]; simpl in E;
    (eapply Hg; [|exact E]); intros [];
    destruct mp; destruct (get_legal_moves game);
    try apply cancels_ret;
    try (apply cancels_bind; [apply cancels_call_score|];
         intros v; apply cancels_ret);
    apply minimax_loop_cancels; intros g; apply minimax_with_cancels.
Qed.

(** X2: [minimax] is left in three ways only, for any evaluation
    function.  Every call reads the clock at least once and all its readings
    but the last passed the guard.  It returns a result only if the last
    reading passed too; it raises [Timeout] at a last reading below the
    threshold; and any other exception it raises is one the evaluation
    function raised, after a last reading that passed. *)
Theorem minimax_cancels_at_first_short_reading (game : Board) (depth : Z)
    (mp : bool) (k : nat) (r : res result) (k' : nat) :
  minimax_with evaluate self (Z.to_nat depth) game mp k = (r, k') ->
  (k < k')%nat /\
  readings_pass self k (Nat.pred k') /\
  match r with
  | Ok _ => TIMER_THRESHOLD self <= time_left self (Nat.pred k')
  | Raise e =>
      (e = Timeout /\ time_left self (Nat.pred k') < TIMER_THRESHOLD self) \/
      (TIMER_THRESHOLD self <= time_left self (Nat.pred k') /\
       evaluation_raises evaluate self e)
  end.
Proof.
  intros E.
  pose proof (minimax_with_reads_the_clock _ _ _ _ _ _ E) as Hlt.
  destruct (minimax_with_cancels _ _ _ _ _ _ E) as [_ Hr].
  split; [exact Hlt|]. destruct r.
  - split.
    + intros j Hj. apply Hr. lia.
    + apply Hr. lia.
  - destruct Hr as [(He & _ & Hp & Hs)|[Hp Hev]].
    + split; [exact Hp|]. left. auto.
    + split; [intros j Hj; apply Hp; lia|].
      right. split; [apply Hp; lia|exact Hev].
Qed.


Lemma minimax_with_exit (n : nat) (game : Board) (mp : bool) (k : nat)
    (e : exn) (k' : nat) :
  minimax_with evaluate self n game mp k = (Raise e, k') ->
  (e = Timeout /\ (k < k')%nat /\
   time_left self (Nat.pred k') < TIMER_THRESHOLD self) \/
  evaluation_raises evaluate self e.
Proof.
  intros E. destruct (minimax_with_cancels _ _ _ _ _ _ E) as [_ Hr].
  destruct Hr as [(He & Hlt & _ & Hs)|[_ Hev]]; [left|right]; auto.
Qed.

(** What leaves the iterative loop: [Timeout], raised at a reading of the
    clock below the threshold, or an exception of the evaluation function. *)
Lemma iterative_loop_with_exit (game : Board) (fuel : nat) :
  forall iterator best k e best' k',
    iterative_loop_with evaluate fuel self game iterator best k
    = Some (e, best', k') ->
    (e = Timeout /\ (k < k')%nat /\
     time_left self (Nat.pred k') < TIMER_THRESHOLD self) \/
    evaluation_raises evaluate self e.
Proof.
  induction fuel as [|fuel IH]; intros iterator best k e best' k' E;
    [discriminate|].
  cbn [iterative_loop_with] in E.
  destruct (minimax_with evaluate self (Z.to_nat iterator) game true k)
    as [[r|e0] k1] eqn:Em.
  - pose proof (minimax_with_reads_the_clock _ _ _ _ _ _ Em) as Hlt.
    destruct (IH _ _ _ _ _ _ E) as [(He & Hlt' & Hs)|Hev]; [left|right; exact Hev].
    repeat split; try assumption; lia.
  - inversion E; subst. exact (minimax_with_exit _ _ _ _ _ _ Em).
Qed.

(** With an evaluation function that always returns, [minimax_with] is
    [minimax] on the player that has it as its [score]. *)
Lemma minimax_with_score (n : nat) :
  forall game mp k,
    minimax_with (fun g p => Ok (score self g p)) self n game mp k =
    minimax_n self n game mp k.
Proof.
  induction n as [|n IH]; intros game mp k; simpl;
    unfold bind at 1; symmetry; unfold bind at 1; symmetry;
    destruct (time_guard self k) as [[[]|e] k1]; try reflexivity;
    destruct mp; destruct (get_legal_moves game); try reflexivity;
    apply minimax_loop_ext; intros g j; apply IH.
Qed.

End AnyEvaluationFacts.

Section AnyEvaluationGetMove.

Context {Board Player : Type} {provider : Provider Board Player}.
Variable evaluate : Board -> Player -> res pyfloat.

Lemma iterative_loop_with_score (self : @CustomPlayer Board Player)
    (game : Board) (fuel : nat) :
  forall iterator best k,
    iterative_loop_with (fun g p => Ok (score self g p)) fuel self game
      iterator best k =
    iterative_loop fuel self game iterator best k.
Proof.
  induction fuel as [|fuel IH]; intros iterator best k; [reflexivity|].
  cbn [iterative_loop_with iterative_loop]. unfold minimax.
  rewrite minimax_with_score.
  destruct (minimax_n self (Z.to_nat iterator) game true k) as [[r|e] k1];
    [apply IH|reflexivity].
Qed.

(** [get_move] is [get_move_with] at the evaluation function that returns
    the [score] of the record. *)
Lemma get_move_with_score (self : @CustomPlayer Board Player) (fuel : nat)
    (game : Board) (legal_moves : list Move) (clock : nat -> Z) (k : nat) :
  get_move_with (fun g p => Ok (score self g p)) fuel self game legal_moves
    clock k =
  get_move fuel self game legal_moves clock k.
Proof.
  unfold get_move_with, get_move.
  rewrite (iterative_loop_with_score (set_time_left self clock)).
  unfold minimax.
  rewrite (minimax_with_score (set_time_left self clock)).
  reflexivity.
Qed.

(** X11: [get_move] never raises [Timeout], in either mode: what
    it raises is an exception of the evaluation function, which neither
    [minimax] nor [get_move] catches.  With [mixed_heuristic] as evaluation
    function that is [NameError]. *)
Theorem get_move_raises_only_what_evaluation_raises (fuel : nat)
    (self : @CustomPlayer Board Player) (game : Board)
    (legal_moves : list Move) (clock : nat -> Z) (k : nat)
    (r : res Move) (k' : nat) :
  get_move_with evaluate fuel self game legal_moves clock k = Some (r, k') ->
  match r with
  | Ok _ => True
  | Raise e => e <> Timeout /\ evaluation_raises evaluate self e
  end.
Proof.
  unfold get_move_with. intros E.
  destruct (iterative (set_time_left self clock)).
  - destruct (iterative_loop_with evaluate fuel (set_time_left self clock)
                game 1 (NegInf, NO_MOVE) k) as [[[e best] k1]|] eqn:El;
      [|discriminate].
    destruct (iterative_loop_with_exit _ _ _ _ _ _ _ _ _ _ El)
      as [(He & _)|Hev].
    + subst e. inversion E. exact I.
    + destruct e; inversion E; try exact I; (split; [discriminate|exact Hev]).
  - destruct (get_legal_moves game); [inversion E; exact I|].
    destruct (minimax_with evaluate (set_time_left self clock)
                (Z.to_nat (search_depth (set_time_left self clock))) game
                true k) as [[r0|e] k1] eqn:Em.
    + inversion E. exact I.
    + destruct (minimax_with_exit _ _ _ _ _ _ _ _ Em) as [(He & _)|Hev].
      * subst e. inversion E. exact I.
      * destruct e; inversion E; try exact I;
          (split; [discriminate|exact Hev]).
Qed.

(** X13: in iterative mode, under a clock that never falls below
    the threshold, [get_move] ends only through an exception of the
    evaluation function: the exception is passed on, or caught if it is
    [Timeout] itself.  With an evaluation function that raises nothing the
    loop does not end, whatever the state. *)
Theorem get_move_iterative_ends_by_timeout_or_failure
    (self : @CustomPlayer Board Player) (game : Board)
    (legal_moves : list Move) (clock : nat -> Z) (k fuel : nat) :
  iterative self = true ->
  (forall j, TIMER_THRESHOLD self <= clock j) ->
  (forall r k',
     get_move_with evaluate fuel self game legal_moves clock k = Some (r, k') ->
     exists e,
       evaluation_raises evaluate self e /\
       match r with Ok _ => e = Timeout | Raise e' => e' = e end) /\
  ((forall g, exists v, evaluate g (me self) = Ok v) ->
   get_move_with evaluate fuel self game legal_moves clock k = None).
Proof.
  intros Hi Hpass.
  assert (H1 : forall r k',
     get_move_with evaluate fuel self game legal_moves clock k = Some (r, k') ->
     exists e,
       evaluation_raises evaluate self e /\
       match r with Ok _ => e = Timeout | Raise e' => e' = e end).
  { unfold get_move_with.
    change (iterative (set_time_left self clock)) with (iterative self).
    rewrite Hi. intros r k' E.
    destruct (iterative_loop_with evaluate fuel (set_time_left self clock)
                game 1 (NegInf, NO_MOVE) k) as [[[e best] k1]|] eqn:El;
      [|discriminate].
    destruct (iterative_loop_with_exit _ _ _ _ _ _ _ _ _ _ El)
      as [(_ & _ & Hs)|Hev].
    - exfalso. cbn [time_left TIMER_THRESHOLD set_time_left] in Hs.
      specialize (Hpass (Nat.pred k1)). lia.
    - exists e. split; [exact Hev|].
      destruct e; inversion E; reflexivity. }
  split; [exact H1|].
  intros Hev.
  destruct (get_move_with evaluate fuel self game legal_moves clock k)
    as [[r k']|] eqn:E; [|reflexivity].
  exfalso. destruct (H1 _ _ eq_refl) as (e & (g & Hg) & _).
  destruct (Hev g) as [v Hv]. cbn [me set_time_left] in Hg. congruence.
Qed.

End AnyEvaluationGetMove.

Section FailingEvaluation.

Context {Board Player : Type} {provider : Provider Board Player}
        {queries : BoardQueries Board Player}.

(** X23: a player whose evaluation function is [mixed_heuristic]
    fails in the opening.  In iterative mode, if the first legal move leads
    to a state where the opponent can move and at least half of the board
    is blank, and the first two readings of the clock pass, [get_move]
    raises [NameError] for [difference_player_biased] after those two
    readings. *)
Theorem get_move_fails_with_mixed_heuristic
    (self : @CustomPlayer Board Player) (game : Board)
    (legal_moves : list Move) (clock : nat -> Z) (k fuel : nat)
    (lm : Move) (rest : list Move) :
  iterative self = true ->
  get_legal_moves game = lm :: rest ->
  get_legal_moves (forecast_move game lm) <> [] ->
  width (forecast_move game lm) * height (forecast_move game lm)
  <= 2 * Z.of_nat (List.length (get_blank_spaces (forecast_move game lm))) ->
  TIMER_THRESHOLD self <= clock k ->
  TIMER_THRESHOLD self <= clock (S k) ->
  get_move_with mixed_heuristic (S fuel) self game legal_moves clock k
  = Some (Raise (NameError "difference_player_biased"), S (S k)).
Proof.
  intros Hi Hm Hc Hb H0 H1.
  unfold get_move_with.
  change (iterative (set_time_left self clock)) with (iterative self).
  rewrite Hi. cbn [iterative_loop_with].
  change (Z.to_nat 1) with 1%nat. cbn [minimax_with].
  rewrite guard_bind. cbn [time_left TIMER_THRESHOLD set_time_left].
  destruct (clock k <? TIMER_THRESHOLD self) eqn:E0;
    [apply Z.ltb_lt in E0; lia|].
  rewrite Hm. cbn [minimax_loop]. unfold bind at 1.
  cbn [minimax_with]. rewrite guard_bind.
  cbn [time_left TIMER_THRESHOLD set_time_left].
  destruct (clock (S k) <? TIMER_THRESHOLD self) eqn:E1;
    [apply Z.ltb_lt in E1; lia|].
  destruct (get_legal_moves (forecast_move game lm)) eqn:Hc'; [contradiction|].
  unfold bind, call_score. cbn [me set_time_left].
  unfold mixed_heuristic.
  destruct (less_than_half_blank (forecast_move game lm)) eqn:Eh;
    [|reflexivity].
  apply less_than_half_blank_spec in Eh. lia.
Qed.

End FailingEvaluation.

(** ** The further properties at concrete inputs *)

Lemma tree_clock_passes (depth : Z) (iter : bool) (meth : string) :
  forall j,
    TIMER_THRESHOLD (Tree.player depth iter meth Tree.plenty 0)
    <= time_left (Tree.player depth iter meth Tree.plenty 0) j.
Proof. intros j. vm_compute. discriminate. Qed.

Lemma counting_is_finite (depth : Z) (iter : bool) (clock : nat -> Z)
    (threshold : Z) :
  finite_evaluation (Examples.counting depth iter clock threshold).
Proof. intros state. eexists. reflexivity. Qed.

Lemma tie_regular (self : @CustomPlayer tree unit) :
  score self = (fun t _ => Tree.val t) ->
  regular self 1 Tree.tie.
Proof.
  intros Hs. cbn [regular]. rewrite Hs.
  split; [discriminate|]. intros m [<-|[<-|[]]];
    (split; [discriminate|]); eexists; reflexivity.
Qed.

Lemma minimax_without_moves_witness :
  minimax (Tree.player 5 false "minimax" Tree.plenty 0)
    (Tree.dead (1, 1) (Fin 3)) 5 true 0%nat
  = (Ok (Fin 0, (-1, -1)), 1%nat).
Proof.
  apply (minimax_without_moves (Tree.player 5 false "minimax" Tree.plenty 0)
           (Tree.dead (1, 1) (Fin 3)) 5 true 0%nat).
  - reflexivity.
  - vm_compute. discriminate.
Defined.

Lemma minimax_cancels_at_first_short_reading_witness :
  let self := Examples.knight 1 false Tree.plenty 250 in
  (0 < 2)%nat /\
  readings_pass self 0 (Nat.pred 2) /\
  ((NameError "difference_player_biased" = Timeout /\
    time_left self (Nat.pred 2) < TIMER_THRESHOLD self) \/
   (TIMER_THRESHOLD self <= time_left self (Nat.pred 2) /\
    evaluation_raises mixed_heuristic self
      (NameError "difference_player_biased"))).
Proof.
  intros self.
  assert (E : minimax_with mixed_heuristic self (Z.to_nat 1)
                Examples.open_field true 0%nat
              = (Raise (NameError "difference_player_biased"), 2%nat))
    by (vm_compute; reflexivity).
  exact (minimax_cancels_at_first_short_reading mixed_heuristic self
           Examples.open_field 1 true 0%nat
           (Raise (NameError "difference_player_biased")) 2%nat E).
Defined.

Lemma alphabeta_without_moves_witness :
  alphabeta (Tree.player 3 false "alphabeta" Tree.plenty 0)
    (Tree.dead (1, 1) (Fin 3)) 3 NegInf PosInf true 0%nat
  = (Raise (UnboundLocalError "best_move"), 1%nat).
Proof.
  apply (alphabeta_without_moves
           (Tree.player 3 false "alphabeta" Tree.plenty 0)
           (Tree.dead (1, 1) (Fin 3)) 3 NegInf PosInf true 0%nat).
  - reflexivity.
  - lia.
  - vm_compute. discriminate.
Defined.

Lemma alphabeta_fails_when_no_move_improves_witness :
  alphabeta (Tree.player 1 false "alphabeta" Tree.plenty 0)
    Examples.all_lost 1 NegInf PosInf true 0%nat
  = (Raise (UnboundLocalError "best_move"), 1%nat).
Proof.
  apply (alphabeta_fails_when_no_move_improves
           (Tree.player 1 false "alphabeta" Tree.plenty 0)
           Examples.all_lost NegInf PosInf true 0%nat).
  - intros m [<-|[<-|[]]]; reflexivity.
  - discriminate.
  - vm_compute. discriminate.
Defined.

Lemma alphabeta_full_window_witness :
  let self := Tree.player 2 false "alphabeta" Tree.plenty 0 in
  exists m,
    alphabeta self Tree.two_ply 2 NegInf PosInf true 0%nat
    = (Ok (minimax_value self (Z.to_nat 2) Tree.two_ply true, m), 1%nat) /\
    first_optimal self (Nat.pred (Z.to_nat 2)) Tree.two_ply true
      (minimax_value self (Z.to_nat 2) Tree.two_ply true) = Some m.
Proof.
  intros self.
  assert (Hd : 0 < 2) by lia.
  exact (alphabeta_full_window self Tree.two_ply 2 true 0%nat Hd
           (two_ply_regular self eq_refl) (tree_clock_passes 2 false _ 0%nat)).
Defined.

Lemma alphabeta_window_sound_witness :
  let self := Tree.player 2 false "alphabeta" Tree.plenty 0 in
  (exists z m,
     alphabeta_max self Tree.two_ply 2 (Fin 5) (Fin 6) 0%nat
     = (Ok (Fin z, m), 0%nat) /\
     Order.within (minimax_value self (Z.to_nat 2) Tree.two_ply true)
       (Fin 5) (Fin 6) (Fin z)) /\
  (exists z m,
     alphabeta_min self Tree.two_ply 2 (Fin 5) (Fin 6) 0%nat
     = (Ok (Fin z, m), 0%nat) /\
     Order.within (minimax_value self (Z.to_nat 2) Tree.two_ply false)
       (Fin 5) (Fin 6) (Fin z)).
Proof.
  intros self.
  assert (Hw : Order.lt (Fin 5) (Fin 6)) by (cbn; lia).
  exact (alphabeta_window_sound self Tree.two_ply 2 (Fin 5) (Fin 6) 0%nat
           (two_ply_regular self eq_refl) Hw).
Defined.

Lemma minimax_score_is_one_sided_witness :
  let self := Tree.player 2 false "minimax" Tree.plenty 0 in
  exists m k',
    minimax self Tree.two_ply 2 true 0%nat
    = (Ok (one_sided_value self (Z.to_nat 2) Tree.two_ply true, m), k').
Proof.
  intros self.
  exact (minimax_score_is_one_sided self (tree_clock_passes 2 false _)
           Tree.two_ply 2 true 0%nat).
Defined.

Lemma minimax_returns_a_legal_move_witness :
  In (1, 0) (get_legal_moves Tree.two_ply) /\ exists z, Fin 1 = Fin z.
Proof.
  assert (Hd : 0 < 2) by lia.
  assert (Hm : get_legal_moves Tree.two_ply <> []) by discriminate.
  exact (minimax_returns_a_legal_move (Examples.counting 2 false Tree.plenty 0)
           (counting_is_finite _ _ _ _) Tree.two_ply 2 true 0%nat
           (Fin 1) (1, 0) 7%nat Hd Hm eq_refl).
Defined.

Lemma get_move_returns_legal_move_or_sentinel_witness :
  exists m, Ok (1, 0) = Ok m /\
            (m = (-1, -1) \/ In m (get_legal_moves Tree.two_ply)).
Proof.
  assert (Hdepth : iterative (Examples.counting 2 true Tree.plenty 250) = false ->
                   0 < search_depth (Examples.counting 2 true Tree.plenty 250))
    by discriminate.
  exact (get_move_returns_legal_move_or_sentinel 5
           (Examples.counting 2 true Tree.plenty 250) Tree.two_ply []
           Tree.ticking 0%nat (Ok (1, 0)) 9%nat
           (counting_is_finite _ _ _ _) Hdepth eq_refl).
Defined.

Lemma get_move_raises_only_what_evaluation_raises_witness :
  NameError "difference_player_biased" <> Timeout /\
  evaluation_raises mixed_heuristic (Examples.knight 3 true Tree.plenty 250)
    (NameError "difference_player_biased").
Proof.
  assert (E : get_move_with mixed_heuristic 5
                (Examples.knight 3 true Tree.plenty 250) Examples.open_field
                [] Tree.plenty 0%nat
              = Some (Raise (NameError "difference_player_biased"), 2%nat))
    by (vm_compute; reflexivity).
  exact (get_move_raises_only_what_evaluation_raises mixed_heuristic 5
           (Examples.knight 3 true Tree.plenty 250) Examples.open_field []
           Tree.plenty 0%nat (Raise (NameError "difference_player_biased"))
           2%nat E).
Defined.


Lemma get_move_iterative_ends_by_timeout_or_failure_witness :
  get_move_with (fun g p => Ok (custom_score g p)) 50
    (Tree.player 3 true "minimax" Tree.plenty 250) Tree.deepening []
    Tree.plenty 0%nat
  = None.
Proof.
  assert (Hi : iterative (Tree.player 3 true "minimax" Tree.plenty 250) = true)
    by reflexivity.
  assert (Hpass : forall j,
             TIMER_THRESHOLD (Tree.player 3 true "minimax" Tree.plenty 250)
             <= Tree.plenty j) by (intros j; vm_compute; discriminate).
  apply (proj2 (get_move_iterative_ends_by_timeout_or_failure
                  (fun g p => Ok (custom_score g p))
                  (Tree.player 3 true "minimax" Tree.plenty 250)
                  Tree.deepening [] Tree.plenty 0%nat 50%nat Hi Hpass)).
  intros g. eexists. reflexivity.
Defined.

Lemma get_move_fails_with_mixed_heuristic_witness :
  get_move_with mixed_heuristic (S 4)
    (Examples.knight 3 true Tree.plenty 250) Examples.open_field []
    Tree.plenty 0%nat
  = Some (Raise (NameError "difference_player_biased"), 2%nat).
Proof.
  apply (get_move_fails_with_mixed_heuristic
           (Examples.knight 3 true Tree.plenty 250) Examples.open_field []
           Tree.plenty 0%nat 4%nat (1, 2)
           [(1, 4); (2, 1); (2, 5); (4, 1); (4, 5); (5, 2); (5, 4)]).
  - reflexivity.
  - vm_compute. reflexivity.
  - vm_compute. discriminate.
  - vm_compute. discriminate.
  - vm_compute. discriminate.
  - vm_compute. discriminate.
Defined.

Lemma get_move_keeps_greatest_completed_result_witness :
  let self := Tree.player 3 true "minimax" Tree.plenty 250 in
  exists best,
    Ok (0, 1) = Ok (snd best) /\
    (best = (NegInf, (-1, -1)) \/
     In best (completed_iterations 9 (set_time_left self Tree.ticking)
                Tree.deepening 1 0%nat)) /\
    forall x,
      In x (completed_iterations 9 (set_time_left self Tree.ticking)
              Tree.deepening 1 0%nat) ->
      Tuple.ltb best x = false.
Proof.
  intros self.
  exact (get_move_keeps_greatest_completed_result 9 self Tree.deepening []
           Tree.ticking 0%nat (Ok (0, 1)) 9%nat eq_refl eq_refl).
Defined.


Lemma one_ply_scores_agree_witness :
  let self := Tree.player 1 false "minimax" Tree.plenty 0 in
  exists v m1 k1 m2,
    minimax self Tree.tie 1 true 0%nat = (Ok (v, m1), k1) /\
    alphabeta self Tree.tie 1 NegInf PosInf true 0%nat = (Ok (v, m2), 1%nat).
Proof.
  intros self.
  exact (one_ply_scores_agree self Tree.tie true 0%nat
           (tie_regular self eq_refl) (tree_clock_passes 1 false _)).
Defined.

Lemma minimax_score_is_optimistic_witness :
  let self := Tree.player 2 false "minimax" Tree.plenty 0 in
  exists v m1 k1 w m2,
    minimax self Tree.two_ply 2 true 0%nat = (Ok (v, m1), k1) /\
    alphabeta self Tree.two_ply 2 NegInf PosInf true 0%nat
    = (Ok (w, m2), 1%nat) /\
    Order.le w v.
Proof.
  intros self.
  assert (Hd : 0 < 2) by lia.
  exact (minimax_score_is_optimistic self Tree.two_ply 2 true 0%nat Hd
           (two_ply_regular self eq_refl) (tree_clock_passes 2 false _)).
Defined.

Lemma future_moves_weight_range_witness :
  future_moves_weight Examples.open_field true = Fin 1183 /\
  exists z, future_moves_weight Examples.open_field true = Fin z /\
            0 <= z <= 1183.
Proof.
  split; [vm_compute; reflexivity|].
  apply (future_moves_weight_range Examples.open_field true);
    vm_compute; reflexivity.
Defined.

Lemma grid_moves_differ (cell : Move) :
  cell <> (0, 1) -> Tuple.move_eqb cell (0, 1) = false.
Proof.
  intros H. destruct cell as [r c]. unfold Tuple.move_eqb. cbn [fst snd].
  destruct (Z.eqb_spec r 0) as [->|]; [|reflexivity].
  destruct (Z.eqb_spec c 1) as [->|]; [|reflexivity].
  contradiction.
Qed.

Lemma future_moves_weight_ignores_one_jump_witness :
  move_is_legal Examples.corner_free (0, 1) = true /\
  move_is_legal Examples.corner_blocked (0, 1) = false /\
  future_moves_weight Examples.corner_free true
  = future_moves_weight Examples.corner_blocked true.
Proof.
  split; [reflexivity|]. split; [reflexivity|].
  apply (future_moves_weight_ignores_one_jump Examples.corner_free
           Examples.corner_blocked true); try reflexivity.
  intros cell Hcell.
  change (Grid.legal Examples.corner_free cell
          = Grid.legal Examples.corner_blocked cell).
  unfold Grid.legal. cbn [Examples.corner_free Grid.g_blank Grid.g_width
                            Grid.g_height existsb].
  rewrite (grid_moves_differ cell Hcell). reflexivity.
Defined.
